(** * happyreaper: a command line client for cassandra-reaper

    A shallow embedding of the client's flag value parsers, its client-side
    filters and sorting, its response handling and its command table,
    together with the properties the specification states about them.

    Go strings are byte strings: they are modelled by [string], whose
    characters are 8-bit [ascii] values.  A [*time.Time] field is an
    [option Time]; a nil dereference is a panic and is modelled by [None]
    in the functions that can reach one. *)

From Stdlib Require Import ZArith Lia Ascii String List Bool.
From Stdlib Require Import Floats.SpecFloat.
From Stdlib Require Import Sorting.Permutation Sorting.Sorted.
From stdpp Require Import base decidable option list strings gmap sorting.

Local Open Scope string_scope.
Local Open Scope list_scope.
Local Open Scope Z_scope.

(** ** Package errors (src/errors/error.go) *)

Module errors.

Inductive Kind := Other | Invalid | IO.

Definition Kind_String (k : Kind) : string :=
  match k with
  | Other => "other"
  | Invalid => "invalid operation"
  | IO => "I/O error"
  end.

(** The values of Go's [error] interface the program builds or receives:
    [errorString] and [Error] of this package, and the errors of the
    libraries it calls (transport, JSON decoding, flag and time parsing),
    which are kept by their message. *)
Inductive error :=
| errorString (s : string)
| Error (kind : Kind) (op : string) (err : error)
| foreign (msg : string).

Definition E (kind : Kind) (op : string) (err : error) : error :=
  Error kind op err.

Definition Str (s : string) : error := errorString s.

Section Errorf.
(** [fmt.Sprintf] applied to the only shape of format this program
    passes to [Errorf]: a literal prefix followed by one [%q] verb.  The
    quoting of [%q] ([strconv.Quote]) belongs to Go's library and is a
    parameter. *)
Variable quote : string -> string.

Definition Errorf (prefix : string) (arg : string) : error :=
  Str (String.append prefix (quote arg)).

(** The [Error()] methods: the message of an [errorString] is its string;
    an [Error] prints its kind, its operation quoted and the message of the
    error it wraps. *)
Fixpoint message (e : error) : string :=
  match e with
  | errorString s => s
  | Error kind op err =>
      "{kind: " +:+ Kind_String kind +:+ " op: " +:+ quote op
      +:+ " err: " +:+ message err +:+ "}"
  | foreign msg => msg
  end.
End Errorf.

End errors.

Abbreviation error := errors.error.

(** ** time.Time

    An instant without monotonic clock reading, as [time.Parse] and the JSON
    decoder produce it: seconds since January 1, year 1 00:00:00 UTC, and
    nanoseconds within the second. *)

Record Time := mkTime { sec : Z; nsec : Z }.

Definition Time_IsZero (t : Time) : bool :=
  (sec t =? 0) && (nsec t =? 0).

Definition Time_Before (t u : Time) : bool :=
  (sec t <? sec u) || ((sec t =? sec u) && (nsec t <? nsec u)).

Definition Time_After (t u : Time) : bool :=
  (sec t >? sec u) || ((sec t =? sec u) && (nsec t >? nsec u)).

(** The chronological order on instants, used to state the properties. *)
Definition Time_le (t u : Time) : Prop :=
  sec t < sec u \/ (sec t = sec u /\ nsec t <= nsec u).

(** ** contains (src/main.go) *)

Definition contains (a b : list string) : bool :=
  let m : gmap string unit := foldl (fun m el => <[el := tt]> m) ∅ a in
  (fix loop (b : list string) : bool :=
     match b with
     | [] => false
     | el :: b' =>
         match m !! el with
         | Some _ => true
         | None => loop b'
         end
     end) b.

(** ** strings.EqualFold (Go's library)

    The keyword comparisons of the flag parsers go through
    [strings.EqualFold], which compares two UTF-8 strings under Unicode
    simple case folding.  It is modelled after its Go source: a byte-wise
    ASCII fast path, and from the first non-ASCII byte on a rune-wise loop
    that decodes UTF-8 and walks the folding orbit with
    [unicode.SimpleFold]. *)

Definition byte (c : ascii) : Z := Z.of_N (N_of_ascii c).

Definition RuneSelf : Z := 0x80.
Definition RuneError : Z := 0xFFFD.

Fixpoint string_drop (n : nat) (s : string) : string :=
  match n, s with
  | O, _ => s
  | S n', String _ s' => string_drop n' s'
  | S _, EmptyString => EmptyString
  end.

(** utf8.first: information about the first byte of a UTF-8 sequence
    (high nibble: index into [acceptRanges], low bits: sequence length). *)
Definition utf8_xx : Z := 0xF1.
Definition utf8_as : Z := 0xF0.

Definition utf8_first (b : Z) : Z :=
  if b <? 0x80 then utf8_as
  else if b <? 0xC2 then utf8_xx
  else if b <? 0xE0 then 0x02
  else if b =? 0xE0 then 0x13
  else if b <? 0xED then 0x03
  else if b =? 0xED then 0x23
  else if b <? 0xF0 then 0x03
  else if b =? 0xF0 then 0x34
  else if b <? 0xF4 then 0x04
  else if b =? 0xF4 then 0x44
  else utf8_xx.

Definition utf8_locb : Z := 0x80.
Definition utf8_hicb : Z := 0xBF.

Definition utf8_acceptRanges (i : Z) : Z * Z :=
  if i =? 0 then (utf8_locb, utf8_hicb)
  else if i =? 1 then (0xA0, utf8_hicb)
  else if i =? 2 then (utf8_locb, 0x9F)
  else if i =? 3 then (0x90, utf8_hicb)
  else if i =? 4 then (utf8_locb, 0x8F)
  else (0, 0).

Definition utf8_maskx : Z := 0x3F.
Definition utf8_mask2 : Z := 0x1F.
Definition utf8_mask3 : Z := 0x0F.
Definition utf8_mask4 : Z := 0x07.

(** utf8.DecodeRuneInString: the first rune of [s] and its width in bytes;
    [(RuneError, 1)] for an invalid encoding, [(RuneError, 0)] for the empty
    string. *)
Definition DecodeRuneInString (s : string) : Z * nat :=
  match s with
  | EmptyString => (RuneError, 0%nat)
  | String c0 r0 =>
      let s0 := byte c0 in
      let x := utf8_first s0 in
      if utf8_as <=? x then
        (* rune(s[0])&^mask | RuneError&mask, with mask all ones iff x = xx *)
        (if Z.odd x then RuneError else s0, 1%nat)
      else
        let sz := Z.land x 7 in
        let accept := utf8_acceptRanges (Z.shiftr x 4) in
        if Z.of_nat (String.length s) <? sz then (RuneError, 1%nat)
        else
          match r0 with
          | EmptyString => (RuneError, 1%nat)
          | String c1 r1 =>
              let s1 := byte c1 in
              if (s1 <? fst accept) || (snd accept <? s1) then (RuneError, 1%nat)
              else if sz <=? 2 then
                (Z.lor (Z.shiftl (Z.land s0 utf8_mask2) 6) (Z.land s1 utf8_maskx),
                 2%nat)
              else
                match r1 with
                | EmptyString => (RuneError, 1%nat)
                | String c2 r2 =>
                    let s2 := byte c2 in
                    if (s2 <? utf8_locb) || (utf8_hicb <? s2) then (RuneError, 1%nat)
                    else if sz <=? 3 then
                      (Z.lor (Z.lor (Z.shiftl (Z.land s0 utf8_mask3) 12)
                                    (Z.shiftl (Z.land s1 utf8_maskx) 6))
                             (Z.land s2 utf8_maskx), 3%nat)
                    else
                      match r2 with
                      | EmptyString => (RuneError, 1%nat)
                      | String c3 _ =>
                          let s3 := byte c3 in
                          if (s3 <? utf8_locb) || (utf8_hicb <? s3)
                          then (RuneError, 1%nat)
                          else
                            (Z.lor (Z.lor (Z.lor
                               (Z.shiftl (Z.land s0 utf8_mask4) 18)
                               (Z.shiftl (Z.land s1 utf8_maskx) 12))
                               (Z.shiftl (Z.land s2 utf8_maskx) 6))
                               (Z.land s3 utf8_maskx), 4%nat)
                      end
                end
          end
  end.

(** unicode.SimpleFold on the folding orbits that contain an ASCII rune:
    the letters, with the Kelvin sign U+212A in the orbit of K and the long
    s U+017F in the orbit of S.  It returns the smallest rune of the orbit
    above [r], or the smallest of the orbit when there is none.  [EqualFold]
    only applies it to the smaller of the two runes it compares and to that
    rune's orbit, and one of the two is a byte of an ASCII keyword in every
    call this program makes; the orbits of the other runes are not
    tabulated and those runes are left fixed. *)
Definition SimpleFold (r : Z) : Z :=
  if r =? 0x4B then 0x6B
  else if r =? 0x6B then 0x212A
  else if r =? 0x212A then 0x4B
  else if r =? 0x53 then 0x73
  else if r =? 0x73 then 0x17F
  else if r =? 0x17F then 0x53
  else if (0x41 <=? r) && (r <=? 0x5A) then r + 0x20
  else if (0x61 <=? r) && (r <=? 0x7A) then r - 0x20
  else r.

(** [for r != sr && r < tr { r = unicode.SimpleFold(r) }]: an orbit has at
    most four runes, which bounds the iterations. *)
Fixpoint fold_walk (n : nat) (sr tr r : Z) : Z :=
  match n with
  | O => r
  | S n' =>
      if negb (r =? sr) && (r <? tr) then fold_walk n' sr tr (SimpleFold r)
      else r
  end.

(** The body of the comparison of two bytes in the ASCII fast path. *)
Definition fold_eq_ascii (sr tr : Z) : bool :=
  if tr =? sr then true
  else
    let '(sr, tr) := if tr <? sr then (tr, sr) else (sr, tr) in
    (0x41 <=? sr) && (sr <=? 0x5A) && (tr =? sr + 0x61 - 0x41).

(** The body of the comparison of two runes in the general loop. *)
Definition fold_eq_rune (sr tr : Z) : bool :=
  if tr =? sr then true
  else
    let '(sr, tr) := if tr <? sr then (tr, sr) else (sr, tr) in
    if tr <? RuneSelf then
      (0x41 <=? sr) && (sr <=? 0x5A) && (tr =? sr + 0x61 - 0x41)
    else
      fold_walk 4 sr tr (SimpleFold sr) =? tr.

(** The loop after the label [hasUnicode]: [for _, sr := range s].  The
    range loop decodes a rune at the current index and advances by its
    width; [skip] counts the bytes of the current rune that are still to be
    stepped over. *)
Fixpoint EqualFold_hasUnicode (skip : nat) (s t : string) {struct s} : bool :=
  match s with
  | EmptyString => match t with EmptyString => true | _ => false end
  | String _ s' =>
      match skip with
      | S k => EqualFold_hasUnicode k s' t
      | O =>
          let '(sr, size) := DecodeRuneInString s in
          match t with
          | EmptyString => false
          | String d t' =>
              let '(tr, t) :=
                if byte d <? RuneSelf then (byte d, t')
                else
                  let '(r, size) := DecodeRuneInString t in
                  (r, string_drop size t) in
              if fold_eq_rune sr tr
              then EqualFold_hasUnicode (Nat.pred size) s' t
              else false
          end
      end
  end.

Fixpoint EqualFold (s t : string) : bool :=
  match s, t with
  | String c s', String d t' =>
      let sr := byte c in
      let tr := byte d in
      if RuneSelf <=? Z.lor sr tr then EqualFold_hasUnicode 0 s t
      else if fold_eq_ascii sr tr then EqualFold s' t'
      else false
  | EmptyString, EmptyString => true
  | _, _ => false
  end.

(** ** Enum-like flag values

    [RunState], [ScheduleState] and [Parallelism] are Go string types: a
    value is any string, the defined variants are the constants below, and
    the zero value is the empty string (flag not given).  [Set] has a
    pointer receiver: it is modelled by passing the stored value in and
    returning the stored value after the call with the error ([None] is Go's
    nil). *)

Definition RunState := string.

Definition NotStarted : RunState := "NOT_STARTED".
Definition Running : RunState := "RUNNING".
Definition Error : RunState := "ERROR".
Definition Done : RunState := "DONE".
Definition Paused : RunState := "PAUSED".
Definition Aborted : RunState := "ABORTED".
Definition Deleted : RunState := "DELETED".

Definition RunState_String (s : RunState) : string := s.

Definition ScheduleState := string.

Definition SActive : ScheduleState := "ACTIVE".
Definition SPaused : ScheduleState := "PAUSED".
Definition SDeleted : ScheduleState := "DELETED".

Definition ScheduleState_String (s : ScheduleState) : string := s.

Definition Parallelism := string.

Definition Sequential : Parallelism := "SEQUENTIAL".
Definition Parallel : Parallelism := "PARALLEL".
Definition DatacenterAware : Parallelism := "DATACENTER_AWARE".

Definition Parallelism_String (p : Parallelism) : string := p.

(** The defined variants of each type, in the order of their declaration. *)
Definition RunState_variants : list RunState :=
  [NotStarted; Running; Error; Done; Paused; Aborted; Deleted].
Definition ScheduleState_variants : list ScheduleState :=
  [SActive; SPaused; SDeleted].
Definition Parallelism_variants : list Parallelism :=
  [Sequential; Parallel; DatacenterAware].

Section FlagValues.

(** The quoting of the [%q] verb, see [errors.Errorf]. *)
Variable quote : string -> string.

Definition RunState_Set (s : RunState) (str : string)
  : RunState * option error :=
  if EqualFold str "not_started" then (NotStarted, None)
  else if EqualFold str "running" then (Running, None)
  else if EqualFold str "error" then (Error, None)
  else if EqualFold str "done" then (Done, None)
  else if EqualFold str "paused" then (Paused, None)
  else if EqualFold str "aborted" then (Aborted, None)
  else if EqualFold str "deleted" then (Deleted, None)
  else (s, Some (errors.Errorf quote "invalid state " str)).

Definition ScheduleState_Set (s : ScheduleState) (str : string)
  : ScheduleState * option error :=
  if EqualFold str "active" then (SActive, None)
  else if EqualFold str "paused" then (SPaused, None)
  else if EqualFold str "deleted" then (SDeleted, None)
  else (s, Some (errors.Errorf quote "invalid state " str)).

Definition Parallelism_Set (p : Parallelism) (s : string)
  : Parallelism * option error :=
  if EqualFold s "sequential" then (Sequential, None)
  else if EqualFold s "parallel" then (Parallel, None)
  else if EqualFold s "datacenter_aware" then (DatacenterAware, None)
  else (p, Some (errors.Errorf quote "invalid parallelism " s)).

End FlagValues.

(** ** time.Parse with the layout of [myTime] (Go's library)

    [myTimeLayout] is [2006-01-02]: [time.Parse] cuts it into the chunks
    [stdLongYear], the literal [-], [stdZeroMonth], the literal [-] and
    [stdZeroDay], and consumes the value chunk by chunk with the helpers
    below, which follow Go's [time/format.go].  A [*ParseError] is kept as
    a [foreign] error; its text here only says which step failed. *)

Fixpoint string_take (n : nat) (s : string) : string :=
  match n, s with
  | O, _ => EmptyString
  | S n', String c s' => String c (string_take n' s')
  | S _, EmptyString => EmptyString
  end.

Definition byte_at (s : string) (i : nat) : Z :=
  match String.get i s with
  | Some c => byte c
  | None => 0
  end.

Definition isDigit (s : string) (i : nat) : bool :=
  if (String.length s <=? i)%nat then false
  else
    let c := byte_at s i in
    (0x30 <=? c) && (c <=? 0x39).

(** [getnum]: a one or two digit number; [None] is [errBad]. *)
Definition getnum (s : string) (fixed : bool) : option (Z * string) :=
  if negb (isDigit s 0) then None
  else if negb (isDigit s 1) then
    if fixed then None
    else Some (byte_at s 0 - 0x30, string_drop 1 s)
  else Some ((byte_at s 0 - 0x30) * 10 + (byte_at s 1 - 0x30), string_drop 2 s).

(** [leadingInt]: the leading decimal digits of [s] and the rest; [None] is
    [errLeadingInt] (overflow of the accumulator). *)
Fixpoint leadingInt_from (x : Z) (s : string) : option (Z * string) :=
  match s with
  | EmptyString => Some (x, s)
  | String c s' =>
      let b := byte c in
      if (b <? 0x30) || (0x39 <? b) then Some (x, s)
      else if 2 ^ 63 / 10 <? x then None
      else
        let x := x * 10 + b - 0x30 in
        if 2 ^ 63 <? x then None else leadingInt_from x s'
  end.

Definition leadingInt (s : string) : option (Z * string) := leadingInt_from 0 s.

(** [atoi]: an optionally signed decimal number that spans all of [s];
    [None] is [errAtoi]. *)
Definition atoi (s : string) : option Z :=
  let '(neg, s) :=
    match s with
    | String c s' =>
        if (byte c =? 0x2D) || (byte c =? 0x2B) then (byte c =? 0x2D, s')
        else (false, s)
    | EmptyString => (false, s)
    end in
  match leadingInt s with
  | None => None
  | Some (q, rem) =>
      if (0 <? String.length rem)%nat then None
      else Some (if neg then - q else q)
  end.

(** [skip]: the value after the literal [prefix]; [None] is [errBad].  The
    branch of [skip] for a space in the prefix is not modelled: the layout
    has none. *)
Fixpoint skip (value prefix : string) {struct prefix} : option string :=
  match prefix with
  | EmptyString => Some value
  | String p prefix' =>
      match value with
      | EmptyString => None
      | String v value' =>
          if byte v =? byte p then skip value' prefix' else None
      end
  end.

Definition isLeap (year : Z) : bool :=
  (Z.rem year 4 =? 0) && (negb (Z.rem year 100 =? 0) || (Z.rem year 400 =? 0)).

Definition daysBefore : list Z :=
  [0; 31; 59; 90; 120; 151; 181; 212; 243; 273; 304; 334; 365].

Definition daysIn (m year : Z) : Z :=
  if (m =? 2) && isLeap year then 29
  else nth (Z.to_nat m) daysBefore 0 - nth (Z.to_nat (m - 1)) daysBefore 0.

(** [time.Date(year, month, day, 0, 0, 0, 0, UTC)] for a month in 1..12 and
    a day of that month, which is what [Parse] hands it after validation
    (Go's normalisation of out-of-range fields is not modelled): midnight
    UTC of that day of the proleptic Gregorian calendar. *)
Definition daysSinceYearOne (year : Z) : Z :=
  let y := year - 1 in
  365 * y + y / 4 - y / 100 + y / 400.

Definition Date (year month day : Z) : Time :=
  let d := daysSinceYearOne year
           + nth (Z.to_nat (month - 1)) daysBefore 0
           + (if isLeap year && (3 <=? month) then 1 else 0)
           + (day - 1) in
  mkTime (d * 86400) 0.

(** The fields [Parse] reads under the layout, before the validation of the
    day of the month. *)
Definition Parse_fields (value : string) : error + (Z * Z * Z) :=
  (* stdLongYear *)
  if (String.length value <? 4)%nat || negb (isDigit value 0)
  then inl (errors.foreign "parsing time: cannot parse as 2006")
  else
    match atoi (string_take 4 value) with
    | None => inl (errors.foreign "parsing time: cannot parse as 2006")
    | Some year =>
        let value := string_drop 4 value in
        (* literal, stdZeroMonth *)
        match skip value "-" with
        | None => inl (errors.foreign "parsing time: cannot parse as -")
        | Some value =>
            match getnum value true with
            | None => inl (errors.foreign "parsing time: cannot parse as 01")
            | Some (month, value) =>
                if (month <=? 0) || (12 <? month)
                then inl (errors.foreign "parsing time: month out of range")
                else
                  (* literal, stdZeroDay *)
                  match skip value "-" with
                  | None => inl (errors.foreign "parsing time: cannot parse as -")
                  | Some value =>
                      match getnum value true with
                      | None =>
                          inl (errors.foreign "parsing time: cannot parse as 02")
                      | Some (day, value) =>
                          (* end of the layout *)
                          if negb (String.length value =? 0)%nat
                          then inl (errors.foreign "parsing time: extra text")
                          else inr (year, month, day)
                      end
                  end
            end
        end
    end.

Definition time_Parse (value : string) : error + Time :=
  match Parse_fields value with
  | inl e => inl e
  | inr (year, month, day) =>
      if (day <? 1) || (daysIn month year <? day)
      then inl (errors.foreign "parsing time: day out of range")
      else inr (Date year month day)
  end.

(** ** myTime (src/main.go) *)

Record myTime := mk_myTime { myTime_Time : Time }.

(** The zero value of [myTime]: the flag was not given. *)
Definition myTime_zero : myTime := mk_myTime (mkTime 0 0).

Definition myTime_IsZero (t : myTime) : bool := Time_IsZero (myTime_Time t).

Definition myTime_Set (t : myTime) (s : string) : myTime * option error :=
  match time_Parse s with
  | inl err => (t, Some err)
  | inr t2 => (mk_myTime t2, None)
  end.

(** ** Records of the remote service (src/repair.go, schedule, src/cluster.go) *)

(** Go's [float64]: a binary floating-point value, by its sign, mantissa
    and exponent. *)
Definition float64 : Set := spec_float.

Module RepairRun.
Record t := mk {
  ID : Z;
  Owner : string;
  ClusterName : string;
  KeyspaceName : string;
  State : RunState;
  Cause : string;
  ColumnFamilies : list string;
  Intensity : float64;
  TotalSegments : Z;
  SegmentsRepaired : Z;
  LastEvent : string;
  Duration : string;
  CreationTime : option Time;
  StartTime : option Time;
  EndTime : option Time;
  PauseTime : option Time
}.
End RepairRun.

Module RepairSchedule.
Record t := mk {
  ID : string;
  Owner : string;
  ClusterName : string;
  KeyspaceName : string;
  State : ScheduleState;
  ColumnFamilies : list string;
  Intensity : float64;
  IncrementalRepair : bool;
  RepairParallelism : Parallelism;
  ScheduledDaysBetween : Z;
  SegmentCount : Z;
  CreationTime : option Time;
  PauseTime : option Time;
  NextActivation : option Time
}.
End RepairSchedule.

Module Cluster.
Record t := mk {
  Name : string;
  SeedHosts : list string;
  RepairRuns : list RepairRun.t;
  RepairSchedules : list RepairSchedule.t
}.
End Cluster.

(** ** What a command does

    A command is run for its effects.  Its run is recorded as the list of
    the library calls it makes, in order: HTTP requests, JSON decoding of a
    response body, and prints (the arguments of a print are kept, the
    rendering of [fmt] is not modelled).  It ends by returning an error or
    nil, or by a panic. *)

Inductive Arg :=
| AStr (s : string)
| AInt (n : Z)
| ARun (r : RepairRun.t)
| ASchedule (sc : RepairSchedule.t).

Inductive Event :=
| EvHTTP (method url : string)
| EvDecode (body : string)
| EvPrintln (s : string)
| EvPrintf (format : string) (args : list Arg)
| EvYellow (format : string) (args : list Arg).

Inductive Outcome :=
| Return (err : option error)
| Panic.

Definition Run : Type := list Event * Outcome.

(** The newline of Go's string literals. *)
Definition nl : string := String (ascii_of_nat 10) EmptyString.

Record Response := mkResponse { StatusCode : Z; Body : string }.

Definition StatusOK : Z := 200.
Definition StatusCreated : Z := 201.

(** What [fs.Parse(args)] of package flag reports to a command whose flag
    set holds values of type [F]: [flag.ErrHelp], another error, or nil with
    the flag values (and the remaining positional arguments) filled in. *)
Inductive ParseOutcome (F : Type) :=
| ErrHelp
| ParseErr (err : error)
| Parsed (fl : F).
Arguments ErrHelp {F}.
Arguments ParseErr {F} err.
Arguments Parsed {F} fl.

(** ** sort.Slice (Go's library)

    [sort.Slice] is specified by its contract, not by one of its
    implementations: given a comparison that is a strict weak ordering of
    the elements and that returns on all of them, it returns a permutation
    in which no element is less than its predecessor.  A comparison that
    panics is one that returns [None]. *)

Record StrictWeakOrder {A : Type} (lt : A -> A -> bool) (l : list A) : Prop := {
  swo_irrefl : forall x, In x l -> lt x x = false;
  swo_trans : forall x y z, In x l -> In y l -> In z l ->
      lt x y = true -> lt y z = true -> lt x z = true;
  swo_incomp_trans : forall x y z, In x l -> In y l -> In z l ->
      lt x y = false -> lt y z = false -> lt x z = false
}.

Class SliceSorter := {
  sort_Slice : forall {A : Type}, (A -> A -> option bool) -> list A -> option (list A);
  sort_Slice_contract :
    forall (A : Type) (less : A -> A -> option bool) (lt : A -> A -> bool) (l : list A),
      (forall x y, In x l -> In y l -> less x y = Some (lt x y)) ->
      StrictWeakOrder lt l ->
      exists l', sort_Slice less l = Some l'
                 /\ Permutation l l'
                 /\ Sorted (fun x y => lt y x = false) l'
}.

(** [insertionSortLessFunc], which [sort.Slice] runs on slices of at most
    twelve elements: each element in turn is swapped towards the front
    while it is less than its predecessor.  [rprefix] is the part already
    sorted, last element first. *)
Fixpoint insertion_insert {A : Type} (less : A -> A -> option bool)
    (x : A) (rprefix : list A) : option (list A) :=
  match rprefix with
  | [] => Some [x]
  | p :: rprefix' =>
      match less x p with
      | None => None
      | Some true =>
          match insertion_insert less x rprefix' with
          | None => None
          | Some r => Some (p :: r)
          end
      | Some false => Some (x :: rprefix)
      end
  end.

Fixpoint insertion_loop {A : Type} (less : A -> A -> option bool)
    (rprefix : list A) (rest : list A) : option (list A) :=
  match rest with
  | [] => Some (rev rprefix)
  | x :: rest' =>
      match insertion_insert less x rprefix with
      | None => None
      | Some rprefix' => insertion_loop less rprefix' rest'
      end
  end.

Definition insertionSort {A : Type} (less : A -> A -> option bool)
    (data : list A) : option (list A) :=
  match data with
  | [] => Some []
  | x :: rest => insertion_loop less [x] rest
  end.

(** ** Flag sets of the commands *)

Module addCluster_fs.
Record t := mk { flSeed : string }.
End addCluster_fs.

Module viewCluster_fs.
Record t := mk {
  flShowRuns : bool;
  flShowSchedules : bool;
  flCFs : list string;
  flRunState : RunState;
  flScheduleState : ScheduleState;
  Args : list string
}.
End viewCluster_fs.

Module listRepairs_fs.
Record t := mk {
  flRunState : RunState;
  flCluster : string;
  flKeyspace : string;
  flTables : list string;
  flOwner : string;
  flCause : string;
  flStartAfter : myTime;
  flStartBefore : myTime
}.
End listRepairs_fs.

Module repairID_fs.
(** view-repair, pause-repair and resume-repair *)
Record t := mk { flID : Z }.
End repairID_fs.

Module deleteRepair_fs.
Record t := mk { flID : Z; flOwner : string }.
End deleteRepair_fs.

Module addRepair_fs.
Record t := mk {
  flCluster : string;
  flKeyspace : string;
  flTables : list string;
  flOwner : string;
  flCause : string;
  flSegments : Z;
  flPar : Parallelism;
  flIntensity : float64
}.
End addRepair_fs.

Module addSchedule_fs.
Record t := mk {
  flCluster : string;
  flKeyspace : string;
  flTables : list string;
  flOwner : string;
  flSegments : Z;
  flPar : Parallelism;
  flIntensity : float64;
  flIncrementalRepair : bool;
  flScheduleDaysBetween : Z;
  flScheduleTriggerTime : string
}.
End addSchedule_fs.

Module scheduleID_fs.
(** view-schedule, pause-schedule and resume-schedule *)
Record t := mk { flID : string }.
End scheduleID_fs.

Module listSchedules_fs.
Record t := mk {
  flCluster : string;
  flKeyspace : string;
  flState : ScheduleState;
  flSortBy : string;
  flReverseSort : bool
}.
End listSchedules_fs.

Module deleteSchedule_fs.
Record t := mk { flID : string; flOwner : string }.
End deleteSchedule_fs.

Record printClusterParams := mk_printClusterParams {
  ShowRuns : bool;
  ShowSchedules : bool;
  FilterCFs : list string;
  FilterRunState : RunState;
  FilterScheduleState : ScheduleState
}.

(** ** Client-side filters *)

Definition nonempty (s : string) : bool := negb (String.eqb s "").
Definition differs (a b : string) : bool := negb (String.eqb a b).

Definition is_nil {A : Type} (p : option A) : bool :=
  match p with
  | Some _ => false
  | None => true
  end.

(** Go's [a && b] where evaluating [b] can panic. *)
Definition and_then (a : bool) (b : option bool) : option bool :=
  if a then b else Some false.

(** [p.Before(u)] and [p.After(u)] through a [*time.Time]: a nil pointer
    panics. *)
Definition ptr_Before (p : option Time) (u : Time) : option bool :=
  match p with
  | Some t => Some (Time_Before t u)
  | None => None
  end.

Definition ptr_After (p : option Time) (u : Time) : option bool :=
  match p with
  | Some t => Some (Time_After t u)
  | None => None
  end.

(** The [switch] in the loop of [listRepairs]: [Some true] when a case
    fires (the run is skipped by [continue]), [Some false] when none does
    (the run is printed), [None] for a panic. *)
Definition listRepairs_skip (fl : listRepairs_fs.t) (run : RepairRun.t)
  : option bool :=
  let flStartAfter := listRepairs_fs.flStartAfter fl in
  let flStartBefore := listRepairs_fs.flStartBefore fl in
  if nonempty (listRepairs_fs.flCluster fl)
     && differs (listRepairs_fs.flCluster fl) (RepairRun.ClusterName run)
  then Some true
  else if nonempty (listRepairs_fs.flKeyspace fl)
     && differs (listRepairs_fs.flKeyspace fl) (RepairRun.KeyspaceName run)
  then Some true
  else if (0 <? length (listRepairs_fs.flTables fl))%nat
     && contains (RepairRun.ColumnFamilies run) (listRepairs_fs.flTables fl)
  then Some true
  else if nonempty (listRepairs_fs.flOwner fl)
     && differs (listRepairs_fs.flOwner fl) (RepairRun.Owner run)
  then Some true
  else if nonempty (listRepairs_fs.flCause fl)
     && differs (listRepairs_fs.flCause fl) (RepairRun.Cause run)
  then Some true
  else if (negb (myTime_IsZero flStartAfter) || negb (myTime_IsZero flStartBefore))
     && is_nil (RepairRun.StartTime run)
  then Some true
  else
    match and_then (negb (myTime_IsZero flStartAfter))
            (ptr_Before (RepairRun.StartTime run) (myTime_Time flStartAfter)) with
    | None => None
    | Some true => Some true
    | Some false =>
        and_then (negb (myTime_IsZero flStartBefore))
          (ptr_After (RepairRun.StartTime run) (myTime_Time flStartBefore))
    end.

(** The loop of [listRepairs] over the decoded runs: the prints, and whether
    it panicked. *)
Fixpoint listRepairs_loop (fl : listRepairs_fs.t) (res : list RepairRun.t)
  : list Event * bool :=
  match res with
  | [] => ([], false)
  | run :: rest =>
      match listRepairs_skip fl run with
      | None => ([], true)
      | Some true => listRepairs_loop fl rest
      | Some false =>
          let '(out, panicked) := listRepairs_loop fl rest in
          (EvPrintf ("%+v" +:+ nl) [ARun run] :: out, panicked)
      end
  end.

(** The two [continue] tests of the loop of [printCluster] over the runs:
    [true] when the run is printed. *)
Definition printCluster_shows_run (params : printClusterParams)
    (run : RepairRun.t) : bool :=
  if (0 <? length (FilterCFs params))%nat
     && negb (contains (RepairRun.ColumnFamilies run) (FilterCFs params))
  then false
  else if nonempty (FilterRunState params)
     && differs (RepairRun.State run) (FilterRunState params)
  then false
  else true.

Definition printCluster_shows_schedule (params : printClusterParams)
    (sc : RepairSchedule.t) : bool :=
  if (0 <? length (FilterCFs params))%nat
     && negb (contains (RepairSchedule.ColumnFamilies sc) (FilterCFs params))
  then false
  else if nonempty (FilterScheduleState params)
     && differs (RepairSchedule.State sc) (FilterScheduleState params)
  then false
  else true.

Fixpoint printCluster_runs (params : printClusterParams)
    (headerPrinted : bool) (runs : list RepairRun.t) : list Event :=
  match runs with
  | [] => []
  | run :: rest =>
      if printCluster_shows_run params run then
        (if headerPrinted then [] else [EvYellow ("Runs:" +:+ nl) []])
        ++ EvPrintf ("%+v" +:+ nl) [ARun run]
        :: printCluster_runs params true rest
      else printCluster_runs params headerPrinted rest
  end.

(** In the loop over the schedules [headerPrinted] is never set: the header
    comes before every schedule printed. *)
Fixpoint printCluster_schedules (params : printClusterParams)
    (scs : list RepairSchedule.t) : list Event :=
  match scs with
  | [] => []
  | sc :: rest =>
      if printCluster_shows_schedule params sc then
        EvYellow ("Schedules:" +:+ nl) []
        :: EvPrintf ("%+v" +:+ nl) [ASchedule sc]
        :: printCluster_schedules params rest
      else printCluster_schedules params rest
  end.

Definition printCluster (c : Cluster.t) (params : printClusterParams)
  : list Event :=
  EvYellow ("Seeds:" +:+ nl) []
  :: map EvPrintln (Cluster.SeedHosts c)
  ++ EvPrintln ""
  :: (if ShowRuns params
      then printCluster_runs params false (Cluster.RepairRuns c) else [])
  ++ (if ShowSchedules params
      then printCluster_schedules params (Cluster.RepairSchedules c) else []).

(** ** sortSchedules (schedule source) *)

Definition ScheduleSortByNextActivation : string := "next-activation".

(** The comparison closures: both dereference [NextActivation] of the two
    elements and panic on nil. *)
Definition less_NextActivation (cmp : Time -> Time -> bool)
    (a b : RepairSchedule.t) : option bool :=
  match RepairSchedule.NextActivation a, RepairSchedule.NextActivation b with
  | Some ta, Some tb => Some (cmp ta tb)
  | _, _ => None
  end.

Definition sortSchedules `{SliceSorter} (res : list RepairSchedule.t)
    (sortBy : string) (reverse : bool) : option (list RepairSchedule.t) :=
  if String.eqb sortBy ScheduleSortByNextActivation && negb reverse then
    sort_Slice (less_NextActivation Time_Before) res
  else if String.eqb sortBy ScheduleSortByNextActivation then
    sort_Slice (less_NextActivation Time_After) res
  else Some res.

(** ** The commands

    Each command is a function of what its flag set reports and of the
    world it talks to.  The world is a parameter: the configured host, the
    remote service behind [net/http], and the library functions whose
    results the commands only pass along. *)

Section Commands.

Context `{SliceSorter}.

(** [flReaperHost[0]] *)
Variable host : string.
(** [net/http]: the answer to a request without body, or a transport
    error. *)
Variable http_do : string -> string -> error + Response.
(** [encoding/json]: decoding a body into each of the shapes the commands
    expect. *)
Variable decode_strings : string -> error + list string.
Variable decode_Cluster : string -> error + Cluster.t.
Variable decode_RepairRun : string -> error + RepairRun.t.
Variable decode_RepairRuns : string -> error + list RepairRun.t.
Variable decode_RepairSchedule : string -> error + RepairSchedule.t.
Variable decode_RepairSchedules : string -> error + list RepairSchedule.t.
(** [url.Values.Encode] on the pairs added, [strconv.Itoa], and
    [fmt.Sprintf] with the verb [%0.3f]. *)
Variable Encode : list (string * string) -> string.
Variable Itoa : Z -> string.
Variable Sprintf_f3 : float64 -> string.

Definition makeURL (path : string) : string :=
  "http://" +:+ host +:+ path.

(** In every command below the body is read through
    [rd := io.TeeReader(resp.Body, &buf)].  On an unexpected status
    [io.Copy(&buf, rd)] drains the body: [buf.ReadFrom] hands the tee the
    spare capacity of [buf] to read into, so the copy the tee writes lands
    on the bytes just read and [buf.String()] is the body, once.  On the
    expected status nothing is read through [rd] before the decoder, and
    where there is no decoder [buf] stays empty. *)

Definition listClusters : Run :=
  let op := "listClusters" in
  let url := makeURL "/cluster" in
  match http_do "GET" url with
  | inl err => ([EvHTTP "GET" url], Return (Some (errors.E errors.IO op err)))
  | inr resp =>
      match decode_strings (Body resp) with
      | inl err =>
          ([EvHTTP "GET" url; EvDecode (Body resp)],
           Return (Some (errors.E errors.IO op err)))
      | inr res =>
          ([EvHTTP "GET" url; EvDecode (Body resp);
            EvPrintln ("All clusters:" +:+ nl)] ++ map EvPrintln res,
           Return None)
      end
  end.

Definition viewCluster (p : ParseOutcome viewCluster_fs.t) : Run :=
  let op := "viewCluster" in
  match p with
  | ErrHelp => ([], Return None)
  | ParseErr err => ([], Return (Some err))
  | Parsed fl =>
      match viewCluster_fs.Args fl with
      | [] => ([], Return (Some (errors.Str "please provide a cluster name")))
      | flName :: _ =>
          let url := makeURL ("/cluster/" +:+ flName) in
          match http_do "GET" url with
          | inl err =>
              ([EvHTTP "GET" url], Return (Some (errors.E errors.IO op err)))
          | inr resp =>
              if negb (StatusCode resp =? StatusOK) then
                ([EvHTTP "GET" url], Return (Some (errors.Str (Body resp))))
              else
                match decode_Cluster (Body resp) with
                | inl err =>
                    ([EvHTTP "GET" url; EvDecode (Body resp)],
                     Return (Some (errors.E errors.IO op err)))
                | inr res =>
                    let params := {|
                      ShowRuns := viewCluster_fs.flShowRuns fl;
                      ShowSchedules := viewCluster_fs.flShowSchedules fl;
                      FilterCFs := viewCluster_fs.flCFs fl;
                      FilterRunState := viewCluster_fs.flRunState fl;
                      FilterScheduleState := viewCluster_fs.flScheduleState fl
                    |} in
                    ([EvHTTP "GET" url; EvDecode (Body resp);
                      EvPrintf ("Cluster %q:" +:+ nl +:+ nl) [AStr flName]]
                     ++ printCluster res params,
                     Return None)
                end
          end
      end
  end.

Definition addCluster (p : ParseOutcome addCluster_fs.t) : Run :=
  let op := "addCluster" in
  match p with
  | ErrHelp => ([], Return None)
  | ParseErr err => ([], Return (Some err))
  | Parsed fl =>
      if String.eqb (addCluster_fs.flSeed fl) "" then
        ([], Return (Some (errors.Str "please provide a seed host")))
      else
        let url := makeURL ("/cluster?seedHost=" +:+ addCluster_fs.flSeed fl) in
        match http_do "POST" url with
        | inl err =>
            ([EvHTTP "POST" url], Return (Some (errors.E errors.IO op err)))
        | inr resp =>
            if negb (StatusCode resp =? StatusOK) then
              ([EvHTTP "POST" url], Return (Some (errors.Str (Body resp))))
            else
              match decode_Cluster (Body resp) with
              | inl err =>
                  ([EvHTTP "POST" url; EvDecode (Body resp)],
                   Return (Some (errors.E errors.IO op err)))
              | inr res =>
                  ([EvHTTP "POST" url; EvDecode (Body resp);
                    EvYellow "Cluster %s correctly added" [AStr (Cluster.Name res)]]
                   ++ printCluster res (mk_printClusterParams false false [] "" ""),
                   Return None)
              end
        end
  end.

Definition listRepairs (p : ParseOutcome listRepairs_fs.t) : Run :=
  let op := "listRepairs" in
  match p with
  | ErrHelp => ([], Return None)
  | ParseErr err => ([], Return (Some err))
  | Parsed fl =>
      let qry :=
        if nonempty (listRepairs_fs.flRunState fl)
        then [("state", RunState_String (listRepairs_fs.flRunState fl))]
        else [] in
      let url := makeURL "/repair_run?" +:+ Encode qry in
      match http_do "GET" url with
      | inl err =>
          ([EvHTTP "GET" url], Return (Some (errors.E errors.IO op err)))
      | inr resp =>
          if negb (StatusCode resp =? StatusOK) then
            ([EvHTTP "GET" url], Return (Some (errors.Str (Body resp))))
          else
            match decode_RepairRuns (Body resp) with
            | inl err =>
                ([EvHTTP "GET" url; EvDecode (Body resp)],
                 Return (Some (errors.E errors.IO op err)))
            | inr res =>
                let '(out, panicked) := listRepairs_loop fl res in
                ([EvHTTP "GET" url; EvDecode (Body resp)] ++ out,
                 if panicked then Panic else Return None)
            end
      end
  end.

Definition viewRepair (p : ParseOutcome repairID_fs.t) : Run :=
  let op := "viewRepair" in
  match p with
  | ErrHelp => ([], Return None)
  | ParseErr err => ([], Return (Some err))
  | Parsed fl =>
      if repairID_fs.flID fl <=? 0 then
        ([], Return (Some (errors.Str "please provide a valid ID")))
      else
        let url := makeURL ("/repair_run/" +:+ Itoa (repairID_fs.flID fl)) in
        match http_do "GET" url with
        | inl err =>
            ([EvHTTP "GET" url], Return (Some (errors.E errors.IO op err)))
        | inr resp =>
            if negb (StatusCode resp =? StatusOK) then
              ([EvHTTP "GET" url], Return (Some (errors.Str (Body resp))))
            else
              match decode_RepairRun (Body resp) with
              | inl err =>
                  ([EvHTTP "GET" url; EvDecode (Body resp)],
                   Return (Some (errors.E errors.IO op err)))
              | inr res =>
                  ([EvHTTP "GET" url; EvDecode (Body resp);
                    EvPrintf ("%+v" +:+ nl) [ARun res]],
                   Return None)
              end
        end
  end.

(** [http.NewRequest] fails on a method or a URL it cannot parse; the
    method is a literal and the URL is built as above: the branch that
    returns [errors.E(errors.Invalid, op, err)] is not modelled. *)
Definition changeRepairState (repairID : Z) (state : RunState) : Run :=
  let op := "changeRepairState" in
  let qry := [("state", RunState_String state)] in
  let ur := makeURL ("/repair_run/" +:+ Itoa repairID) +:+ "?" +:+ Encode qry in
  match http_do "PUT" ur with
  | inl err => ([EvHTTP "PUT" ur], Return (Some (errors.E errors.IO op err)))
  | inr resp =>
      if negb (StatusCode resp =? StatusOK) then
        ([EvHTTP "PUT" ur], Return (Some (errors.Str (Body resp))))
      else
        let buf := "" in
        ([EvHTTP "PUT" ur; EvYellow "State changed to %s" [AStr state]]
         ++ (if (0 <? String.length buf)%nat then [EvPrintln buf] else []),
         Return None)
  end.

Definition pauseRepair (p : ParseOutcome repairID_fs.t) : Run :=
  match p with
  | ErrHelp => ([], Return None)
  | ParseErr err => ([], Return (Some err))
  | Parsed fl =>
      if repairID_fs.flID fl <=? 0 then
        ([], Return (Some (errors.Str "please provide a valid ID")))
      else changeRepairState (repairID_fs.flID fl) Paused
  end.

Definition resumeRepair (p : ParseOutcome repairID_fs.t) : Run :=
  match p with
  | ErrHelp => ([], Return None)
  | ParseErr err => ([], Return (Some err))
  | Parsed fl =>
      if repairID_fs.flID fl <=? 0 then
        ([], Return (Some (errors.Str "please provide a valid ID")))
      else changeRepairState (repairID_fs.flID fl) Running
  end.

Definition deleteRepair (p : ParseOutcome deleteRepair_fs.t) : Run :=
  let op := "deleteRepair" in
  match p with
  | ErrHelp => ([], Return None)
  | ParseErr err => ([], Return (Some err))
  | Parsed fl =>
      if deleteRepair_fs.flID fl <=? 0 then
        ([], Return (Some (errors.Str "please provide a valid ID")))
      else if String.eqb (deleteRepair_fs.flOwner fl) "" then
        ([], Return (Some (errors.Str "please provide a valid owner")))
      else
        let qry := [("owner", deleteRepair_fs.flOwner fl)] in
        let ur := makeURL ("/repair_run/" +:+ Itoa (deleteRepair_fs.flID fl)
                           +:+ "?" +:+ Encode qry) in
        match http_do "DELETE" ur with
        | inl err =>
            ([EvHTTP "DELETE" ur], Return (Some (errors.E errors.IO op err)))
        | inr resp =>
            if negb (StatusCode resp =? StatusOK) then
              ([EvHTTP "DELETE" ur], Return (Some (errors.Str (Body resp))))
            else
              let buf := "" in
              ([EvHTTP "DELETE" ur; EvPrintln buf], Return None)
        end
  end.

Definition addRepair (p : ParseOutcome addRepair_fs.t) : Run :=
  let op := "addRepair" in
  match p with
  | ErrHelp => ([], Return None)
  | ParseErr err => ([], Return (Some err))
  | Parsed fl =>
      if String.eqb (addRepair_fs.flCluster fl) "" then
        ([], Return (Some (errors.Str "please provide a cluster")))
      else if String.eqb (addRepair_fs.flKeyspace fl) "" then
        ([], Return (Some (errors.Str "please provide a keyspace")))
      else if String.eqb (addRepair_fs.flOwner fl) "" then
        ([], Return (Some (errors.Str "please provide an owner")))
      else if String.eqb (addRepair_fs.flCause fl) "" then
        ([], Return (Some (errors.Str "please provide a cause")))
      else
        let flPar :=
          if String.eqb (addRepair_fs.flPar fl) "" then Sequential
          else addRepair_fs.flPar fl in
        let qry :=
          [("clusterName", addRepair_fs.flCluster fl);
           ("keyspace", addRepair_fs.flKeyspace fl)]
          ++ (if (0 <? length (addRepair_fs.flTables fl))%nat
              then [("tables", String.concat "," (addRepair_fs.flTables fl))]
              else [])
          ++ [("owner", addRepair_fs.flOwner fl);
              ("cause", addRepair_fs.flCause fl);
              ("segmentCount", Itoa (addRepair_fs.flSegments fl));
              ("repairParallelism", Parallelism_String flPar);
              ("intensity", Sprintf_f3 (addRepair_fs.flIntensity fl))] in
        let ur := makeURL "/repair_run?" +:+ Encode qry in
        match http_do "POST" ur with
        | inl err =>
            ([EvHTTP "POST" ur], Return (Some (errors.E errors.IO op err)))
        | inr resp =>
            if negb (StatusCode resp =? StatusCreated) then
              ([EvHTTP "POST" ur], Return (Some (errors.Str (Body resp))))
            else
              match decode_RepairRun (Body resp) with
              | inl err =>
                  ([EvHTTP "POST" ur; EvDecode (Body resp)],
                   Return (Some (errors.E errors.IO op err)))
              | inr res =>
                  ([EvHTTP "POST" ur; EvDecode (Body resp);
                    EvYellow "Repair #%d correctly added" [AInt (RepairRun.ID res)];
                    EvPrintf ("%+v" +:+ nl) [ARun res];
                    EvYellow ("NOTE: remember to resume-repair the repair just created"
                              +:+ nl) []],
                   Return None)
              end
        end
  end.

Definition addSchedule (p : ParseOutcome addSchedule_fs.t) : Run :=
  let op := "addSchedule" in
  match p with
  | ErrHelp => ([], Return None)
  | ParseErr err => ([], Return (Some err))
  | Parsed fl =>
      let note :=
        if addSchedule_fs.flIncrementalRepair fl
        then [EvPrintln "NOTE: incremental repairs are not supported yet"]
        else [] in
      if String.eqb (addSchedule_fs.flCluster fl) "" then
        (note, Return (Some (errors.Str "please provide a cluster")))
      else if String.eqb (addSchedule_fs.flKeyspace fl) "" then
        (note, Return (Some (errors.Str "please provide a keyspace")))
      else if String.eqb (addSchedule_fs.flOwner fl) "" then
        (note, Return (Some (errors.Str "please provide an owner")))
      else
        let flPar :=
          if String.eqb (addSchedule_fs.flPar fl) "" then Sequential
          else addSchedule_fs.flPar fl in
        let qry :=
          [("clusterName", addSchedule_fs.flCluster fl);
           ("keyspace", addSchedule_fs.flKeyspace fl)]
          ++ (if (0 <? length (addSchedule_fs.flTables fl))%nat
              then [("tables", String.concat "," (addSchedule_fs.flTables fl))]
              else [])
          ++ [("owner", addSchedule_fs.flOwner fl);
              ("segmentCount", Itoa (addSchedule_fs.flSegments fl));
              ("repairParallelism", Parallelism_String flPar);
              ("intensity", Sprintf_f3 (addSchedule_fs.flIntensity fl));
              ("scheduleDaysBetween",
               Itoa (addSchedule_fs.flScheduleDaysBetween fl))]
          ++ (if nonempty (addSchedule_fs.flScheduleTriggerTime fl)
              then [("scheduleTriggerTime",
                     addSchedule_fs.flScheduleTriggerTime fl)]
              else []) in
        let ur := makeURL "/repair_schedule?" +:+ Encode qry in
        match http_do "POST" ur with
        | inl err =>
            (note ++ [EvHTTP "POST" ur],
             Return (Some (errors.E errors.IO op err)))
        | inr resp =>
            if negb (StatusCode resp =? StatusCreated) then
              (note ++ [EvHTTP "POST" ur],
               Return (Some (errors.Str (Body resp))))
            else
              match decode_RepairSchedule (Body resp) with
              | inl err =>
                  (note ++ [EvHTTP "POST" ur; EvDecode (Body resp)],
                   Return (Some (errors.E errors.IO op err)))
              | inr res =>
                  (note ++
                   [EvHTTP "POST" ur; EvDecode (Body resp);
                    EvYellow "Schedule #%d correctly added"
                      [AStr (RepairSchedule.ID res)];
                    EvPrintf ("%+v" +:+ nl) [ASchedule res]],
                   Return None)
              end
        end
  end.

Definition viewSchedule (p : ParseOutcome scheduleID_fs.t) : Run :=
  let op := "viewSchedule" in
  match p with
  | ErrHelp => ([], Return None)
  | ParseErr err => ([], Return (Some err))
  | Parsed fl =>
      if String.eqb (scheduleID_fs.flID fl) "" then
        ([], Return (Some (errors.Str "please provide a valid ID")))
      else
        let url := makeURL ("/repair_schedule/" +:+ scheduleID_fs.flID fl) in
        match http_do "GET" url with
        | inl err =>
            ([EvHTTP "GET" url], Return (Some (errors.E errors.IO op err)))
        | inr resp =>
            if negb (StatusCode resp =? StatusOK) then
              ([EvHTTP "GET" url], Return (Some (errors.Str (Body resp))))
            else
              match decode_RepairSchedule (Body resp) with
              | inl err =>
                  ([EvHTTP "GET" url; EvDecode (Body resp)],
                   Return (Some (errors.E errors.IO op err)))
              | inr res =>
                  ([EvHTTP "GET" url; EvDecode (Body resp);
                    EvPrintf ("%+v" +:+ nl) [ASchedule res]],
                   Return None)
              end
        end
  end.

(** [callListSchedules] returns the decoded schedules or an error; its
    calls are recorded with either. *)
Definition callListSchedules (qry : list (string * string))
  : list Event * (error + list RepairSchedule.t) :=
  let op := "callListSchedules" in
  let url := makeURL "/repair_schedule" +:+ "?" +:+ Encode qry in
  match http_do "GET" url with
  | inl err => ([EvHTTP "GET" url], inl (errors.E errors.IO op err))
  | inr resp =>
      if negb (StatusCode resp =? StatusOK) then
        ([EvHTTP "GET" url], inl (errors.Str (Body resp)))
      else
        match decode_RepairSchedules (Body resp) with
        | inl err =>
            ([EvHTTP "GET" url; EvDecode (Body resp)],
             inl (errors.E errors.IO op err))
        | inr res => ([EvHTTP "GET" url; EvDecode (Body resp)], inr res)
        end
  end.

Definition nextSchedule (p : ParseOutcome unit) : Run :=
  match p with
  | ErrHelp => ([], Return None)
  | ParseErr err => ([], Return (Some err))
  | Parsed _ =>
      match callListSchedules [] with
      | (calls, inl err) => (calls, Return (Some err))
      | (calls, inr res) =>
          if (length res <=? 0)%nat then (calls, Return None)
          else
            match sortSchedules res ScheduleSortByNextActivation false with
            | None => (calls, Panic)
            | Some res =>
                match res with
                | [] => (calls, Panic)
                | schedule :: _ =>
                    (calls ++ [EvPrintf ("%+v" +:+ nl +:+ nl) [ASchedule schedule]],
                     Return None)
                end
            end
      end
  end.

(** The two tests of the loop of [listSchedules]: [true] when the schedule
    is printed. *)
Definition listSchedules_shows (fl : listSchedules_fs.t)
    (sched : RepairSchedule.t) : bool :=
  let keyspaceOK :=
    String.eqb (listSchedules_fs.flKeyspace fl) ""
    || String.eqb (RepairSchedule.KeyspaceName sched)
                  (listSchedules_fs.flKeyspace fl) in
  let stateOK :=
    String.eqb (listSchedules_fs.flState fl) ""
    || String.eqb (RepairSchedule.State sched) (listSchedules_fs.flState fl) in
  if negb keyspaceOK || negb stateOK then false else true.

Definition listSchedules (p : ParseOutcome listSchedules_fs.t) : Run :=
  match p with
  | ErrHelp => ([], Return None)
  | ParseErr err => ([], Return (Some err))
  | Parsed fl =>
      let qry :=
        (if nonempty (listSchedules_fs.flCluster fl)
         then [("clusterName", listSchedules_fs.flCluster fl)] else [])
        ++ (if nonempty (listSchedules_fs.flKeyspace fl)
            then [("keyspaceName", listSchedules_fs.flKeyspace fl)] else []) in
      match callListSchedules qry with
      | (calls, inl err) => (calls, Return (Some err))
      | (calls, inr res) =>
          match sortSchedules res (listSchedules_fs.flSortBy fl)
                  (listSchedules_fs.flReverseSort fl) with
          | None => (calls, Panic)
          | Some res =>
              (calls ++
               map (fun sched => EvPrintf ("%+v" +:+ nl +:+ nl) [ASchedule sched])
                   (filter (fun sched => listSchedules_shows fl sched = true) res),
               Return None)
          end
      end
  end.

Definition deleteSchedule (p : ParseOutcome deleteSchedule_fs.t) : Run :=
  let op := "deleteSchedule" in
  match p with
  | ErrHelp => ([], Return None)
  | ParseErr err => ([], Return (Some err))
  | Parsed fl =>
      if String.eqb (deleteSchedule_fs.flID fl) "" then
        ([], Return (Some (errors.Str "please provide a valid ID")))
      else if String.eqb (deleteSchedule_fs.flOwner fl) "" then
        ([], Return (Some (errors.Str "please provide a valid owner")))
      else
        let qry := [("owner", deleteSchedule_fs.flOwner fl)] in
        let ur := makeURL ("/repair_schedule/" +:+ deleteSchedule_fs.flID fl)
                  +:+ "?" +:+ Encode qry in
        match http_do "DELETE" ur with
        | inl err =>
            ([EvHTTP "DELETE" ur], Return (Some (errors.E errors.IO op err)))
        | inr resp =>
            if negb (StatusCode resp =? StatusOK) then
              ([EvHTTP "DELETE" ur], Return (Some (errors.Str (Body resp))))
            else
              match decode_RepairSchedule (Body resp) with
              | inl err =>
                  ([EvHTTP "DELETE" ur; EvDecode (Body resp)],
                   Return (Some (errors.E errors.IO op err)))
              | inr res =>
                  ([EvHTTP "DELETE" ur; EvDecode (Body resp);
                    EvYellow "Schedule %s correctly deleted"
                      [AStr (deleteSchedule_fs.flID fl)];
                    EvPrintf ("%+v" +:+ nl) [ASchedule res]],
                   Return None)
              end
        end
  end.

Definition changeScheduleState (repairID : string) (state : ScheduleState)
  : Run :=
  let op := "changeScheduleState" in
  let qry := [("state", ScheduleState_String state)] in
  let ur := makeURL ("/repair_schedule/" +:+ repairID) +:+ "?" +:+ Encode qry in
  match http_do "PUT" ur with
  | inl err => ([EvHTTP "PUT" ur], Return (Some (errors.E errors.IO op err)))
  | inr resp =>
      if negb (StatusCode resp =? StatusOK) then
        ([EvHTTP "PUT" ur], Return (Some (errors.Str (Body resp))))
      else
        let buf := "" in
        ([EvHTTP "PUT" ur; EvYellow "State changed to %s" [AStr state]]
         ++ (if (0 <? String.length buf)%nat then [EvPrintln buf] else []),
         Return None)
  end.

Definition pauseSchedule (p : ParseOutcome scheduleID_fs.t) : Run :=
  match p with
  | ErrHelp => ([], Return None)
  | ParseErr err => ([], Return (Some err))
  | Parsed fl =>
      if String.eqb (scheduleID_fs.flID fl) "" then
        ([], Return (Some (errors.Str "please provide a valid ID")))
      else changeScheduleState (scheduleID_fs.flID fl) SPaused
  end.

Definition resumeSchedule (p : ParseOutcome scheduleID_fs.t) : Run :=
  match p with
  | ErrHelp => ([], Return None)
  | ParseErr err => ([], Return (Some err))
  | Parsed fl =>
      if String.eqb (scheduleID_fs.flID fl) "" then
        ([], Return (Some (errors.Str "please provide a valid ID")))
      else changeScheduleState (scheduleID_fs.flID fl) SActive
  end.

(** *** Invocations

    A subcommand together with what its flag set reported.
    [listClusters] builds no flag set and never looks at its arguments. *)

Inductive Invocation :=
| Inv_addCluster (p : ParseOutcome addCluster_fs.t)
| Inv_viewCluster (p : ParseOutcome viewCluster_fs.t)
| Inv_listClusters
| Inv_addRepair (p : ParseOutcome addRepair_fs.t)
| Inv_viewRepair (p : ParseOutcome repairID_fs.t)
| Inv_listRepairs (p : ParseOutcome listRepairs_fs.t)
| Inv_pauseRepair (p : ParseOutcome repairID_fs.t)
| Inv_resumeRepair (p : ParseOutcome repairID_fs.t)
| Inv_deleteRepair (p : ParseOutcome deleteRepair_fs.t)
| Inv_addSchedule (p : ParseOutcome addSchedule_fs.t)
| Inv_viewSchedule (p : ParseOutcome scheduleID_fs.t)
| Inv_listSchedules (p : ParseOutcome listSchedules_fs.t)
| Inv_pauseSchedule (p : ParseOutcome scheduleID_fs.t)
| Inv_resumeSchedule (p : ParseOutcome scheduleID_fs.t)
| Inv_deleteSchedule (p : ParseOutcome deleteSchedule_fs.t)
| Inv_nextSchedule (p : ParseOutcome unit).

Definition exec (inv : Invocation) : Run :=
  match inv with
  | Inv_addCluster p => addCluster p
  | Inv_viewCluster p => viewCluster p
  | Inv_listClusters => listClusters
  | Inv_addRepair p => addRepair p
  | Inv_viewRepair p => viewRepair p
  | Inv_listRepairs p => listRepairs p
  | Inv_pauseRepair p => pauseRepair p
  | Inv_resumeRepair p => resumeRepair p
  | Inv_deleteRepair p => deleteRepair p
  | Inv_addSchedule p => addSchedule p
  | Inv_viewSchedule p => viewSchedule p
  | Inv_listSchedules p => listSchedules p
  | Inv_pauseSchedule p => pauseSchedule p
  | Inv_resumeSchedule p => resumeSchedule p
  | Inv_deleteSchedule p => deleteSchedule p
  | Inv_nextSchedule p => nextSchedule p
  end.

End Commands.

(** What the flag set of an invocation reported, if it has one. *)
Inductive ParseReport :=
| HelpRequested
| ParseFailed (err : error)
| ParseSucceeded.

Definition report {F : Type} (p : ParseOutcome F) : ParseReport :=
  match p with
  | ErrHelp => HelpRequested
  | ParseErr err => ParseFailed err
  | Parsed _ => ParseSucceeded
  end.

Definition flag_report (inv : Invocation) : option ParseReport :=
  match inv with
  | Inv_addCluster p => Some (report p)
  | Inv_viewCluster p => Some (report p)
  | Inv_listClusters => None
  | Inv_addRepair p => Some (report p)
  | Inv_viewRepair p => Some (report p)
  | Inv_listRepairs p => Some (report p)
  | Inv_pauseRepair p => Some (report p)
  | Inv_resumeRepair p => Some (report p)
  | Inv_deleteRepair p => Some (report p)
  | Inv_addSchedule p => Some (report p)
  | Inv_viewSchedule p => Some (report p)
  | Inv_listSchedules p => Some (report p)
  | Inv_pauseSchedule p => Some (report p)
  | Inv_resumeSchedule p => Some (report p)
  | Inv_deleteSchedule p => Some (report p)
  | Inv_nextSchedule p => Some (report p)
  end.

(** ** The command table (main source, kept with src/repair.go)

    [commandFn] names the functions of type [func([]string) error] of the
    program; [commands] maps group names to maps from subcommand names to
    them.  Go ranges over a map in an unspecified order: [findCommand_in]
    takes the groups in the order the range visits them. *)

Inductive commandFn :=
| fn_addCluster | fn_viewCluster | fn_listClusters
| fn_addRepair | fn_viewRepair | fn_listRepairs
| fn_pauseRepair | fn_resumeRepair | fn_deleteRepair
| fn_addSchedule | fn_viewSchedule | fn_listSchedules
| fn_pauseSchedule | fn_resumeSchedule | fn_deleteSchedule
| fn_nextSchedule.

Definition fn_of (inv : Invocation) : commandFn :=
  match inv with
  | Inv_addCluster _ => fn_addCluster
  | Inv_viewCluster _ => fn_viewCluster
  | Inv_listClusters => fn_listClusters
  | Inv_addRepair _ => fn_addRepair
  | Inv_viewRepair _ => fn_viewRepair
  | Inv_listRepairs _ => fn_listRepairs
  | Inv_pauseRepair _ => fn_pauseRepair
  | Inv_resumeRepair _ => fn_resumeRepair
  | Inv_deleteRepair _ => fn_deleteRepair
  | Inv_addSchedule _ => fn_addSchedule
  | Inv_viewSchedule _ => fn_viewSchedule
  | Inv_listSchedules _ => fn_listSchedules
  | Inv_pauseSchedule _ => fn_pauseSchedule
  | Inv_resumeSchedule _ => fn_resumeSchedule
  | Inv_deleteSchedule _ => fn_deleteSchedule
  | Inv_nextSchedule _ => fn_nextSchedule
  end.

Definition commands : list (string * gmap string commandFn) :=
  [ ("cluster",
     <["add-cluster" := fn_addCluster]>
       (<["view-cluster" := fn_viewCluster]>
          (<["list-clusters" := fn_listClusters]> ∅)));
    ("repair",
     <["add-repair" := fn_addRepair]>
       (<["view-repair" := fn_viewRepair]>
          (<["list-repairs" := fn_listRepairs]>
             (<["pause-repair" := fn_pauseRepair]>
                (<["resume-repair" := fn_resumeRepair]>
                   (<["delete-repair" := fn_deleteRepair]> ∅))))));
    ("schedule",
     <["add-schedule" := fn_addSchedule]>
       (<["view-schedule" := fn_viewSchedule]>
          (<["list-schedules" := fn_listSchedules]>
             (<["pause-schedule" := fn_pauseSchedule]>
                (<["resume-schedule" := fn_resumeSchedule]>
                   (<["delete-schedule" := fn_deleteSchedule]> ∅)))))) ].

Fixpoint findCommand_in (groups : list (string * gmap string commandFn))
    (name : string) : option commandFn :=
  match groups with
  | [] => None
  | (_, group) :: rest =>
      match group !! name with
      | Some fn => Some fn
      | None => findCommand_in rest name
      end
  end.

Definition findCommand (name : string) : option commandFn :=
  findCommand_in commands name.

(** ** main (main source, kept with src/repair.go)

    [main] parses the flags of the program, settles the host, looks the
    first argument up in the table and calls the function found with the
    arguments that follow. *)

(** What [main] writes besides the output of the command it runs: the
    lines of package log and the defaults of the global flag set. *)
Inductive MainEvent :=
| MOut (ev : Event)
| MLogPrintln (msg : string)
| MLogFatal (err : error)
| MLogFatalf (format : string) (arg : error + string)
| MPrintDefaults.

(** How the process ends: [main] returns (status 0), [log.Fatal] and
    [os.Exit(1)] end it with status 1, a panic ends it abnormally. *)
Inductive MainOutcome :=
| Exit (status : Z)
| MainPanic.

Definition tab : string := String (ascii_of_nat 9) EmptyString.

(** [printUsage] ranges over the table and over each group: [visited] is
    the order in which the two ranges visit the names. *)
Definition printUsage (visited : list (string * list string)) : list Event :=
  EvPrintln (nl +:+ "Available sub commands:")
  :: flat_map
       (fun '(groupName, group) =>
          EvPrintf (tab +:+ "%s" +:+ nl) [AStr groupName]
          :: map (fun command => EvPrintf (tab +:+ tab +:+ "%s" +:+ nl)
                                   [AStr command]) group)
       visited.

(** Package flag: what the flag set of each command reports on the
    arguments of the command.  [listClusters] has no flag set. *)
Record FlagSets := {
  parse_addCluster : list string -> ParseOutcome addCluster_fs.t;
  parse_viewCluster : list string -> ParseOutcome viewCluster_fs.t;
  parse_addRepair : list string -> ParseOutcome addRepair_fs.t;
  parse_viewRepair : list string -> ParseOutcome repairID_fs.t;
  parse_listRepairs : list string -> ParseOutcome listRepairs_fs.t;
  parse_pauseRepair : list string -> ParseOutcome repairID_fs.t;
  parse_resumeRepair : list string -> ParseOutcome repairID_fs.t;
  parse_deleteRepair : list string -> ParseOutcome deleteRepair_fs.t;
  parse_addSchedule : list string -> ParseOutcome addSchedule_fs.t;
  parse_viewSchedule : list string -> ParseOutcome scheduleID_fs.t;
  parse_listSchedules : list string -> ParseOutcome listSchedules_fs.t;
  parse_pauseSchedule : list string -> ParseOutcome scheduleID_fs.t;
  parse_resumeSchedule : list string -> ParseOutcome scheduleID_fs.t;
  parse_deleteSchedule : list string -> ParseOutcome deleteSchedule_fs.t;
  parse_nextSchedule : list string -> ParseOutcome unit
}.

(** The call [fn(args)] of a function of the table. *)
Definition call (flag : FlagSets) (fn : commandFn) (args : list string)
  : Invocation :=
  match fn with
  | fn_addCluster => Inv_addCluster (parse_addCluster flag args)
  | fn_viewCluster => Inv_viewCluster (parse_viewCluster flag args)
  | fn_listClusters => Inv_listClusters
  | fn_addRepair => Inv_addRepair (parse_addRepair flag args)
  | fn_viewRepair => Inv_viewRepair (parse_viewRepair flag args)
  | fn_listRepairs => Inv_listRepairs (parse_listRepairs flag args)
  | fn_pauseRepair => Inv_pauseRepair (parse_pauseRepair flag args)
  | fn_resumeRepair => Inv_resumeRepair (parse_resumeRepair flag args)
  | fn_deleteRepair => Inv_deleteRepair (parse_deleteRepair flag args)
  | fn_addSchedule => Inv_addSchedule (parse_addSchedule flag args)
  | fn_viewSchedule => Inv_viewSchedule (parse_viewSchedule flag args)
  | fn_listSchedules => Inv_listSchedules (parse_listSchedules flag args)
  | fn_pauseSchedule => Inv_pauseSchedule (parse_pauseSchedule flag args)
  | fn_resumeSchedule => Inv_resumeSchedule (parse_resumeSchedule flag args)
  | fn_deleteSchedule => Inv_deleteSchedule (parse_deleteSchedule flag args)
  | fn_nextSchedule => Inv_nextSchedule (parse_nextSchedule flag args)
  end.

Section Main.

Context `{SliceSorter}.
Variable http_do : string -> string -> error + Response.
Variable decode_strings : string -> error + list string.
Variable decode_Cluster : string -> error + Cluster.t.
Variable decode_RepairRun : string -> error + RepairRun.t.
Variable decode_RepairRuns : string -> error + list RepairRun.t.
Variable decode_RepairSchedule : string -> error + RepairSchedule.t.
Variable decode_RepairSchedules : string -> error + list RepairSchedule.t.
Variable Encode : list (string * string) -> string.
Variable Itoa : Z -> string.
Variable Sprintf_f3 : float64 -> string.
(** [flagutil.NetworkAddresses.Set]: the addresses held before, the text;
    an error or the addresses held after. *)
Variable NetworkAddresses_Set : list string -> string -> error + list string.
Variable flag : FlagSets.
(** The orders in which the range of [findCommand] and the ranges of
    [printUsage] visit the table. *)
Variable groups : list (string * gmap string commandFn).
Variable visited : list (string * list string).

(** [p] is what [mainFs.Parse(os.Args[1:])] reports: with nil, the
    addresses the flag [host] collected and the remaining arguments.
    [REAPER_HOST] is the value of the environment variable, empty when it
    is not set.  The tests [len(flReaperHost) == 0] and [mainFs.NArg() < 1]
    and the later [flReaperHost[0]] (in [makeURL]), [mainFs.Arg(0)] and
    [mainFs.Args()[1:]] are the two matches on the lists. *)
Definition main (p : ParseOutcome (list string * list string))
    (REAPER_HOST : string) : list MainEvent * MainOutcome :=
  match p with
  | ErrHelp => (map MOut (printUsage visited), Exit 0)
  | ParseErr err => ([MLogFatal err], Exit 1)
  | Parsed (flReaperHost, args) =>
      let fromEnv :=
        if (length flReaperHost =? 0)%nat && nonempty REAPER_HOST
        then NetworkAddresses_Set flReaperHost REAPER_HOST
        else inr flReaperHost in
      match fromEnv with
      | inl err =>
          ([MLogFatalf "REAPER_HOST value is invalid. err=%v" (inl err)],
           Exit 1)
      | inr [] =>
          ([MLogPrintln "please provide a reaper host"; MPrintDefaults]
           ++ map MOut (printUsage visited), Exit 1)
      | inr (host :: _) =>
          match args with
          | [] =>
              ([MLogPrintln "please provide a sub command"; MPrintDefaults]
               ++ map MOut (printUsage visited), Exit 1)
          | command :: rest =>
              match findCommand_in groups command with
              | None =>
                  ([MLogFatalf "invalid command %q" (inr command)], Exit 1)
              | Some fn =>
                  let '(log, out) :=
                    exec host http_do decode_strings decode_Cluster
                      decode_RepairRun decode_RepairRuns decode_RepairSchedule
                      decode_RepairSchedules Encode Itoa Sprintf_f3
                      (call flag fn rest) in
                  match out with
                  | Return None => (map MOut log, Exit 0)
                  | Return (Some err) => (map MOut log ++ [MLogFatal err], Exit 1)
                  | Panic => (map MOut log, MainPanic)
                  end
              end
          end
      end
  end.

End Main.

(** * Vocabulary of the properties

    Definitions the statements below are written with; none of them is part
    of the program. *)

(** The intensity 0.5. *)
Definition one_half : float64 := S754_finite false 1 (-1).

(** A record with its column families replaced. *)
Definition RepairRun_with_cfs (run : RepairRun.t) (cfs : list string) : RepairRun.t :=
  RepairRun.mk (RepairRun.ID run) (RepairRun.Owner run)
    (RepairRun.ClusterName run) (RepairRun.KeyspaceName run)
    (RepairRun.State run) (RepairRun.Cause run) cfs
    (RepairRun.Intensity run) (RepairRun.TotalSegments run)
    (RepairRun.SegmentsRepaired run) (RepairRun.LastEvent run)
    (RepairRun.Duration run) (RepairRun.CreationTime run)
    (RepairRun.StartTime run) (RepairRun.EndTime run) (RepairRun.PauseTime run).

Definition RepairSchedule_with_cfs (sc : RepairSchedule.t) (cfs : list string)
  : RepairSchedule.t :=
  RepairSchedule.mk (RepairSchedule.ID sc) (RepairSchedule.Owner sc)
    (RepairSchedule.ClusterName sc) (RepairSchedule.KeyspaceName sc)
    (RepairSchedule.State sc) cfs (RepairSchedule.Intensity sc)
    (RepairSchedule.IncrementalRepair sc) (RepairSchedule.RepairParallelism sc)
    (RepairSchedule.ScheduledDaysBetween sc) (RepairSchedule.SegmentCount sc)
    (RepairSchedule.CreationTime sc) (RepairSchedule.PauseTime sc)
    (RepairSchedule.NextActivation sc).

(** A run whose only table is the one requested, and flags with only the
    tables filter. *)
Definition run_t1 : RepairRun.t :=
  RepairRun.mk 1 "alice" "prod" "ks" Running "manual" ["t1"] one_half 10 0 "" ""
    None None None None.

Definition flags_tables_t1 : listRepairs_fs.t :=
  listRepairs_fs.mk "" "" "" ["t1"] "" "" myTime_zero myTime_zero.

(** A bound is supplied when its flag holds a non-zero instant. *)
Definition supplied (t : myTime) : Prop := myTime_IsZero t = false.

(** One of the five cases that precede the date cases in the [switch] of
    [listRepairs] fires. *)
Definition field_case_fires (fl : listRepairs_fs.t) (run : RepairRun.t) : bool :=
  (nonempty (listRepairs_fs.flCluster fl)
   && differs (listRepairs_fs.flCluster fl) (RepairRun.ClusterName run))
  || (nonempty (listRepairs_fs.flKeyspace fl)
      && differs (listRepairs_fs.flKeyspace fl) (RepairRun.KeyspaceName run))
  || ((0 <? length (listRepairs_fs.flTables fl))%nat
      && contains (RepairRun.ColumnFamilies run) (listRepairs_fs.flTables fl))
  || (nonempty (listRepairs_fs.flOwner fl)
      && differs (listRepairs_fs.flOwner fl) (RepairRun.Owner run))
  || (nonempty (listRepairs_fs.flCause fl)
      && differs (listRepairs_fs.flCause fl) (RepairRun.Cause run)).


(** ASCII lower-casing, the yardstick for [EqualFold] on ASCII text. *)
Definition lower_byte (z : Z) : Z :=
  if (0x41 <=? z) && (z <=? 0x5A) then z + 0x20 else z.

Definition to_lower (c : ascii) : ascii :=
  ascii_of_N (Z.to_N (lower_byte (byte c))).

Fixpoint ascii_lower (s : string) : string :=
  match s with
  | EmptyString => EmptyString
  | String c s' => String (to_lower c) (ascii_lower s')
  end.

Fixpoint is_ascii (s : string) : bool :=
  match s with
  | EmptyString => true
  | String c s' => (byte c <? RuneSelf) && is_ascii s'
  end.

(** Two tokens that differ at most in the case of their ASCII letters. *)
Definition same_up_to_case (s t : string) : Prop :=
  ascii_lower s = ascii_lower t.

(** The representative of the folding orbit of a rune, for the orbits that
    contain an ASCII rune. *)
Definition canon (r : Z) : Z :=
  if r =? 0x212A then 0x6B
  else if r =? 0x17F then 0x73
  else lower_byte r.

(** Checking a property of bytes on all 256 of them. *)
Definition all_ascii : list ascii := map ascii_of_nat (seq 0 256).

(** The UTF-8 encodings of the Kelvin sign U+212A and of the long s
    U+017F. *)
Definition kelvin : string :=
  String (ascii_of_nat 226) (String (ascii_of_nat 132) (String (ascii_of_nat 170) "")).

Definition long_s : string :=
  String (ascii_of_nat 197) (String (ascii_of_nat 191) "").


(** What the parser of an enum-like flag type owes its caller on failure: on
    a token that equals no serialisation of
    a defined variant under case folding it returns an error and the stored
    value is the one from before the call, whatever it was; and whenever it
    returns an error the stored value is untouched. *)
Definition keeps_value_on_error
    (serialize : string -> string)
    (parse : string -> string -> string * option error)
    (variants : list string) : Prop :=
  (forall tok stored,
      (forall v, In v variants -> EqualFold tok (serialize v) = false) ->
      exists err, parse stored tok = (stored, Some err))
  /\ (forall tok stored err,
        snd (parse stored tok) = Some err -> fst (parse stored tok) = stored).

(** The text of a date: four digits of the year, two of the month, two of
    the day, with hyphens between. *)
Definition digit_char (n : Z) : ascii := ascii_of_N (Z.to_N (0x30 + n)).

Definition format2 (n : Z) : string :=
  String (digit_char (n / 10 mod 10)) (String (digit_char (n mod 10)) "").

Definition format4 (n : Z) : string :=
  String (digit_char (n / 1000 mod 10))
    (String (digit_char (n / 100 mod 10)) (format2 n)).

Definition format_date (year month day : Z) : string :=
  format4 year +:+ "-" +:+ format2 month +:+ "-" +:+ format2 day.

(** A day of the calendar with a four-digit year. *)
Definition calendar_date (year month day : Z) : Prop :=
  0 <= year <= 9999 /\ 1 <= month <= 12 /\ 1 <= day <= daysIn month year.

Definition is_digit (c : ascii) : bool := (0x30 <=? byte c) && (byte c <=? 0x39).

(** The instant a schedule is next activated at, for a schedule that has
    one. *)
Definition next (sc : RepairSchedule.t) : Time :=
  default (mkTime 0 0) (RepairSchedule.NextActivation sc).

(** [a] is activated no later than [b], both carrying the timestamp. *)
Definition activated_no_later (a b : RepairSchedule.t) : Prop :=
  exists ta tb,
    RepairSchedule.NextActivation a = Some ta
    /\ RepairSchedule.NextActivation b = Some tb
    /\ Time_le ta tb.

Definition has_next (sc : RepairSchedule.t) : Prop :=
  is_Some (RepairSchedule.NextActivation sc).

Definition schedule_at (id : string) (t : Time) : RepairSchedule.t :=
  RepairSchedule.mk id "alice" "prod" "ks" SActive ["t1"] one_half false
    Sequential 14 200 None None (Some t).

(** The status an operation treats as success. *)
Definition expected_status (fn : commandFn) : Z :=
  match fn with
  | fn_addRepair | fn_addSchedule => StatusCreated
  | _ => StatusOK
  end.

Definition is_HTTP (ev : Event) : bool :=
  match ev with
  | EvHTTP _ _ => true
  | _ => false
  end.

Definition is_Decode (ev : Event) : bool :=
  match ev with
  | EvDecode _ => true
  | _ => false
  end.

(** A service that is down, and library functions that return nothing of
    use: enough to run the commands that never reach them. *)
Definition unreachable : string -> string -> error + Response :=
  fun _ _ => inl (errors.foreign "connection refused").

(** A run that [listRepairs] prints: no case of its switch fires. *)
Definition listRepairs_prints (fl : listRepairs_fs.t) (run : RepairRun.t) : bool :=
  match listRepairs_skip fl run with
  | Some false => true
  | _ => false
  end.

Definition print_run (run : RepairRun.t) : Event :=
  EvPrintf ("%+v" +:+ nl) [ARun run].

Definition print_schedule (sc : RepairSchedule.t) : Event :=
  EvPrintf ("%+v" +:+ nl) [ASchedule sc].

(** The HTTP method each operation uses. *)
Definition method_of (fn : commandFn) : string :=
  match fn with
  | fn_addCluster | fn_addRepair | fn_addSchedule => "POST"
  | fn_pauseRepair | fn_resumeRepair | fn_pauseSchedule | fn_resumeSchedule => "PUT"
  | fn_deleteRepair | fn_deleteSchedule => "DELETE"
  | _ => "GET"
  end.

(** The name under which an operation reports its I/O errors: the constant
    [op] of the function that makes the request. *)
Definition op_of (fn : commandFn) : string :=
  match fn with
  | fn_addCluster => "addCluster"
  | fn_viewCluster => "viewCluster"
  | fn_listClusters => "listClusters"
  | fn_addRepair => "addRepair"
  | fn_viewRepair => "viewRepair"
  | fn_listRepairs => "listRepairs"
  | fn_pauseRepair | fn_resumeRepair => "changeRepairState"
  | fn_deleteRepair => "deleteRepair"
  | fn_addSchedule => "addSchedule"
  | fn_viewSchedule => "viewSchedule"
  | fn_listSchedules | fn_nextSchedule => "callListSchedules"
  | fn_pauseSchedule | fn_resumeSchedule => "changeScheduleState"
  | fn_deleteSchedule => "deleteSchedule"
  end.

(** The operations that decode the body of a successful response. *)
Definition decodes_body (fn : commandFn) : bool :=
  match fn with
  | fn_pauseRepair | fn_resumeRepair | fn_deleteRepair
  | fn_pauseSchedule | fn_resumeSchedule => false
  | _ => true
  end.

(** What a command writes to its output, as opposed to what it asks of the
    service and of the decoder. *)
Definition is_print (ev : Event) : bool :=
  match ev with
  | EvPrintln _ | EvPrintf _ _ | EvYellow _ _ => true
  | _ => false
  end.

(** The request of a run, if it made one. *)
Definition request_of (log : list Event) : option (string * string) :=
  match List.filter is_HTTP log with
  | EvHTTP method url :: _ => Some (method, url)
  | _ => None
  end.

(** What [listSchedules] and [nextSchedule] print for a schedule. *)
Definition print_schedule_line (sc : RepairSchedule.t) : Event :=
  EvPrintf ("%+v" +:+ nl +:+ nl) [ASchedule sc].

(** The order [sortSchedules] is asked for. *)
Definition in_order (sortBy : string) (reverse : bool)
    (l : list RepairSchedule.t) : Prop :=
  if String.eqb sortBy ScheduleSortByNextActivation then
    if reverse
    then StronglySorted (fun a b => activated_no_later b a) l
    else StronglySorted activated_no_later l
  else True.

(** A schedule that carries no next-activation timestamp. *)
Definition schedule_unplanned (id : string) : RepairSchedule.t :=
  RepairSchedule.mk id "alice" "prod" "ks" SActive ["t1"] one_half false
    Sequential 14 200 None None None.

(** The name under which the table holds a function. *)
Definition command_name (fn : commandFn) : string :=
  match fn with
  | fn_addCluster => "add-cluster"
  | fn_viewCluster => "view-cluster"
  | fn_listClusters => "list-clusters"
  | fn_addRepair => "add-repair"
  | fn_viewRepair => "view-repair"
  | fn_listRepairs => "list-repairs"
  | fn_pauseRepair => "pause-repair"
  | fn_resumeRepair => "resume-repair"
  | fn_deleteRepair => "delete-repair"
  | fn_addSchedule => "add-schedule"
  | fn_viewSchedule => "view-schedule"
  | fn_listSchedules => "list-schedules"
  | fn_pauseSchedule => "pause-schedule"
  | fn_resumeSchedule => "resume-schedule"
  | fn_deleteSchedule => "delete-schedule"
  | fn_nextSchedule => "next-schedule"
  end.

(** The order of the calendar on dates given by year, month and day. *)
Definition date_lt (a b : Z * Z * Z) : Prop :=
  let '(y1, m1, d1) := a in
  let '(y2, m2, d2) := b in
  y1 < y2 \/ (y1 = y2 /\ (m1 < m2 \/ (m1 = m2 /\ d1 < d2))).

(** What a parser stores on success: a defined variant that the token
    equals under case folding. *)
Definition stores_only_variants
    (serialize : string -> string)
    (parse : string -> string -> string * option error)
    (variants : list string) : Prop :=
  forall stored tok v,
    parse stored tok = (v, None) ->
    In v variants /\ EqualFold tok (serialize v) = true.

(** The day of a date, counted from the first day of year 1. *)
Definition day_number (year month day : Z) : Z :=
  daysSinceYearOne year
  + nth (Z.to_nat (month - 1)) daysBefore 0
  + (if isLeap year && (3 <=? month) then 1 else 0)
  + (day - 1).

(** The days of a year before a month and within it. *)
Definition month_start (leap : bool) (m : Z) : Z :=
  nth (Z.to_nat (m - 1)) daysBefore 0 + (if leap && (3 <=? m) then 1 else 0).

Definition month_length (leap : bool) (m : Z) : Z :=
  if (m =? 2) && leap then 29
  else nth (Z.to_nat m) daysBefore 0 - nth (Z.to_nat (m - 1)) daysBefore 0.

(** A decoder that fails and one that succeeds, whatever the body. *)
Definition no_body {A : Type} : string -> error + A :=
  fun _ => inl (errors.foreign "no body").

Definition decoded {A : Type} (x : A) : string -> error + A :=
  fun _ => inr x.

(** The service that answers [resp] to every request. *)
Definition always (resp : Response) : string -> string -> error + Response :=
  fun _ _ => inr resp.

(** Flag sets that report help on every argument list. *)
Definition flag_help : FlagSets :=
  {| parse_addCluster := fun _ => ErrHelp;
     parse_viewCluster := fun _ => ErrHelp;
     parse_addRepair := fun _ => ErrHelp;
     parse_viewRepair := fun _ => ErrHelp;
     parse_listRepairs := fun _ => ErrHelp;
     parse_pauseRepair := fun _ => ErrHelp;
     parse_resumeRepair := fun _ => ErrHelp;
     parse_deleteRepair := fun _ => ErrHelp;
     parse_addSchedule := fun _ => ErrHelp;
     parse_viewSchedule := fun _ => ErrHelp;
     parse_listSchedules := fun _ => ErrHelp;
     parse_pauseSchedule := fun _ => ErrHelp;
     parse_resumeSchedule := fun _ => ErrHelp;
     parse_deleteSchedule := fun _ => ErrHelp;
     parse_nextSchedule := fun _ => ErrHelp |}.


(** * Properties *)

(** ** contains *)

Lemma contains_map_lookup (a : list string) (m0 : gmap string unit) (el : string) :
  is_Some (foldl (fun m el => <[el := tt]> m) m0 a !! el)
  <-> In el a \/ is_Some (m0 !! el).
Proof.
  revert m0. induction a as [|x a IH]; intros m0; simpl.
  - tauto.
  - rewrite IH. destruct (decide (x = el)) as [->|Hne].
    + rewrite lookup_insert_eq. split; [intros _; auto | intros _; right; eauto].
    + rewrite lookup_insert_ne by done. tauto.
Qed.

Lemma contains_overlap (a b : list string) :
  contains a b = true <-> exists x, In x a /\ In x b.
Proof.
  unfold contains.
  set (m := foldl (fun m el => <[el := tt]> m) ∅ a).
  assert (Hm : forall el, is_Some (m !! el) <-> In el a).
  { intros el. subst m. rewrite contains_map_lookup, lookup_empty.
    split; [intros [?|[? ?]]; [done|discriminate] | auto]. }
  clearbody m.
  induction b as [|el b IH]; simpl.
  - split; [discriminate | intros (x & _ & [])].
  - destruct (m !! el) as [u|] eqn:Hel.
    + split; [intros _ | done].
      exists el. split; [apply Hm; eauto | auto].
    + rewrite IH. split.
      * intros (x & Ha & Hb). eauto.
      * intros (x & Ha & [<-|Hb]); [|eauto].
        apply Hm in Ha. rewrite Hel in Ha. destruct Ha; discriminate.
Qed.

Lemma contains_disjoint (a b : list string) :
  contains a b = false <-> forall x, In x a -> ~ In x b.
Proof.
  rewrite <- not_true_iff_false, contains_overlap. firstorder.
Qed.

(** ** Column-family filter of view-cluster *)

Lemma length_pos_nonnil {A : Type} (l : list A) :
  (0 <? length l)%nat = true <-> l <> [].
Proof.
  destruct l; simpl; split; try done.
Qed.

(** C6: the overlap test is true exactly when the two sets share an
    element and false exactly when they are disjoint; a non-empty request
    never matches an empty record set; and with an empty request the
    column-family test is not applied: in [printCluster] whether a run (a
    schedule) is shown then depends on the state test alone, and in
    [listRepairs] the outcome of the switch is the same whatever the column
    families of the run. *)
Theorem contains_any_overlap :
  (forall cfs requested : list string,
      contains cfs requested = true <-> exists x, In x cfs /\ In x requested)
  /\ (forall cfs requested : list string,
      contains cfs requested = false <-> forall x, In x cfs -> ~ In x requested)
  /\ (forall requested : list string,
      requested <> [] -> contains [] requested = false)
  /\ (forall (params : printClusterParams) (run : RepairRun.t),
      FilterCFs params = [] ->
      printCluster_shows_run params run
      = negb (nonempty (FilterRunState params)
              && differs (RepairRun.State run) (FilterRunState params))
      /\ forall cfs, printCluster_shows_run params (RepairRun_with_cfs run cfs)
                     = printCluster_shows_run params run)
  /\ (forall (params : printClusterParams) (sc : RepairSchedule.t),
      FilterCFs params = [] ->
      printCluster_shows_schedule params sc
      = negb (nonempty (FilterScheduleState params)
              && differs (RepairSchedule.State sc) (FilterScheduleState params))
      /\ forall cfs,
           printCluster_shows_schedule params (RepairSchedule_with_cfs sc cfs)
           = printCluster_shows_schedule params sc)
  /\ (forall (fl : listRepairs_fs.t) (run : RepairRun.t),
      listRepairs_fs.flTables fl = [] ->
      forall cfs, listRepairs_skip fl (RepairRun_with_cfs run cfs)
                  = listRepairs_skip fl run).
Proof.
  split; [exact contains_overlap|].
  split; [exact contains_disjoint|].
  split; [|split; [|split]].
  - intros requested _. apply contains_disjoint. intros x [].
  - intros params run Hempty. unfold printCluster_shows_run.
    rewrite Hempty. simpl. split; [|done].
    by destruct (nonempty _ && differs _ _).
  - intros params sc Hempty. unfold printCluster_shows_schedule.
    rewrite Hempty. simpl. split; [|done].
    by destruct (nonempty _ && differs _ _).
  - intros fl run Hempty cfs. unfold listRepairs_skip.
    rewrite Hempty. reflexivity.
Qed.

Lemma contains_any_overlap_witness :
  contains [] ["t1"] = false
  /\ printCluster_shows_run (mk_printClusterParams true false [] "" "")
       (RepairRun.mk 1 "o" "c" "k" Running "" ["t1"] one_half 0 0 "" ""
          None None None None) = true.
Proof.
  split.
  - apply (proj1 (proj2 (proj2 contains_any_overlap)) ["t1"]). discriminate.
  - rewrite (proj1 (proj1 (proj2 (proj2 (proj2 contains_any_overlap)))
                      (mk_printClusterParams true false [] "" "") _ eq_refl)).
    reflexivity.
Defined.

(** ** Filters of list-repairs *)

Lemma nonempty_true (s : string) : nonempty s = true <-> s <> "".
Proof.
  unfold nonempty. rewrite negb_true_iff, <- not_true_iff_false, String.eqb_eq. done.
Qed.

Lemma differs_true (a b : string) : differs a b = true <-> a <> b.
Proof.
  unfold differs. rewrite negb_true_iff, <- not_true_iff_false, String.eqb_eq. done.
Qed.

(** C1 (the code departs from it): with the tables filter [t1] and no other
    filter, the run whose column families are [t1] overlaps the request, so
    it passes every supplied filter; [listRepairs] skips it, while the
    same test in [printCluster] shows it. *)
Theorem listRepairs_tables_filter_inverted :
  contains (RepairRun.ColumnFamilies run_t1)
           (listRepairs_fs.flTables flags_tables_t1) = true
  /\ listRepairs_skip flags_tables_t1 run_t1 = Some true
  /\ listRepairs_loop flags_tables_t1 [run_t1] = ([], false)
  /\ printCluster_shows_run (mk_printClusterParams true false ["t1"] "" "") run_t1
     = true.
Proof. by vm_compute. Qed.

(** In general a run that overlaps a non-empty tables request is never
    printed by [listRepairs]. *)
Lemma listRepairs_skips_overlap (fl : listRepairs_fs.t) (run : RepairRun.t) :
  listRepairs_fs.flTables fl <> [] ->
  (exists x, In x (RepairRun.ColumnFamilies run)
             /\ In x (listRepairs_fs.flTables fl)) ->
  listRepairs_skip fl run = Some true.
Proof.
  intros Hne Hov. apply contains_overlap in Hov.
  apply length_pos_nonnil in Hne.
  unfold listRepairs_skip. rewrite Hov, Hne. simpl.
  by repeat (case_match; try done).
Qed.

(** ** Instants *)

Lemma Time_Before_false (t u : Time) : Time_Before t u = false <-> Time_le u t.
Proof.
  unfold Time_Before, Time_le.
  destruct (Z.ltb_spec (sec t) (sec u)), (Z.eqb_spec (sec t) (sec u)),
    (Z.ltb_spec (nsec t) (nsec u)); simpl; split; try done; lia.
Qed.

Lemma Time_After_false (t u : Time) : Time_After t u = false <-> Time_le t u.
Proof.
  unfold Time_After, Time_le. rewrite !Z.gtb_ltb.
  destruct (Z.ltb_spec (sec u) (sec t)), (Z.eqb_spec (sec t) (sec u)),
    (Z.ltb_spec (nsec u) (nsec t)); simpl; split; try done; lia.
Qed.

Lemma Time_After_Before (t u : Time) : Time_After t u = Time_Before u t.
Proof.
  unfold Time_After, Time_Before. rewrite !Z.gtb_ltb, (Z.eqb_sym (sec t)). done.
Qed.

Lemma Time_le_refl (t : Time) : Time_le t t.
Proof. unfold Time_le. lia. Qed.

Lemma Time_le_trans (t u v : Time) : Time_le t u -> Time_le u v -> Time_le t v.
Proof. unfold Time_le. lia. Qed.

Lemma Time_le_total (t u : Time) : Time_le t u \/ Time_le u t.
Proof. unfold Time_le. lia. Qed.

(** ** Date range of list-repairs *)

Lemma listRepairs_skip_field_case (fl : listRepairs_fs.t) (run : RepairRun.t) :
  field_case_fires fl run = true -> listRepairs_skip fl run = Some true.
Proof.
  unfold field_case_fires, listRepairs_skip. intros Hf.
  repeat (case_match; try done).
  all: try (rewrite ?orb_true_iff in Hf; intuition congruence).
Qed.

Lemma listRepairs_skip_dates (fl : listRepairs_fs.t) (run : RepairRun.t) :
  field_case_fires fl run = false ->
  listRepairs_skip fl run =
    let lo := listRepairs_fs.flStartAfter fl in
    let hi := listRepairs_fs.flStartBefore fl in
    match RepairRun.StartTime run with
    | None => Some (negb (myTime_IsZero lo) || negb (myTime_IsZero hi))
    | Some t =>
        Some ((negb (myTime_IsZero lo) && Time_Before t (myTime_Time lo))
              || (negb (myTime_IsZero hi) && Time_After t (myTime_Time hi)))
    end.
Proof.
  unfold field_case_fires, listRepairs_skip. intros Hf.
  rewrite !orb_false_iff in Hf. destruct Hf as ((((-> & ->) & ->) & ->) & ->).
  simpl.
  destruct (RepairRun.StartTime run) as [t|]; simpl.
  - rewrite andb_false_r.
    destruct (myTime_IsZero (listRepairs_fs.flStartAfter fl)),
      (myTime_IsZero (listRepairs_fs.flStartBefore fl)); simpl;
      try done; by destruct (Time_Before _ _).
  - rewrite andb_true_r.
    destruct (myTime_IsZero (listRepairs_fs.flStartAfter fl)),
      (myTime_IsZero (listRepairs_fs.flStartBefore fl)); simpl; done.
Qed.

(** The switch never dereferences a nil start time. *)
Lemma listRepairs_skip_returns (fl : listRepairs_fs.t) (run : RepairRun.t) :
  exists skipped, listRepairs_skip fl run = Some skipped.
Proof.
  destruct (field_case_fires fl run) eqn:Hf.
  - rewrite (listRepairs_skip_field_case fl run Hf). eauto.
  - rewrite (listRepairs_skip_dates fl run Hf). simpl.
    destruct (RepairRun.StartTime run); eauto.
Qed.

Lemma listRepairs_loop_returns (fl : listRepairs_fs.t) (res : list RepairRun.t) :
  snd (listRepairs_loop fl res) = false.
Proof.
  induction res as [|run rest IH]; simpl; [done|].
  destruct (listRepairs_skip_returns fl run) as [[|] ->]; [done|].
  by destruct (listRepairs_loop fl rest).
Qed.



(** ** Case folding *)

Lemma all_ascii_complete (c : ascii) : In c all_ascii.
Proof.
  unfold all_ascii. rewrite <- (ascii_nat_embedding c).
  apply in_map, in_seq. pose proof (nat_ascii_bounded c). lia.
Qed.

Lemma forall_ascii (P : ascii -> bool) :
  forallb P all_ascii = true -> forall c, P c = true.
Proof.
  intros H c. rewrite forallb_forall in H. apply H, all_ascii_complete.
Qed.

Lemma forall_ascii2 (P : ascii -> ascii -> bool) :
  forallb (fun c => forallb (P c) all_ascii) all_ascii = true ->
  forall c d, P c d = true.
Proof.
  intros H c d. apply forall_ascii. revert c. apply forall_ascii. exact H.
Qed.

Lemma byte_range (c : ascii) : 0 <= byte c < 256.
Proof.
  assert (H : ((0 <=? byte c) && (byte c <? 256)) = true).
  { revert c. apply forall_ascii. by vm_compute. }
  lia.
Qed.

Lemma byte_inj (c d : ascii) : byte c = byte d -> c = d.
Proof.
  unfold byte. intros H. apply N2Z.inj in H.
  rewrite <- (ascii_N_embedding c), <- (ascii_N_embedding d). by rewrite H.
Qed.

Lemma byte_to_lower (c : ascii) : byte (to_lower c) = lower_byte (byte c).
Proof.
  assert (H : (byte (to_lower c) =? lower_byte (byte c)) = true).
  { revert c. apply forall_ascii. by vm_compute. }
  lia.
Qed.

Lemma RuneSelf_lor (c d : ascii) :
  (RuneSelf <=? Z.lor (byte c) (byte d))
  = (RuneSelf <=? byte c) || (RuneSelf <=? byte d).
Proof.
  assert (H : Bool.eqb (RuneSelf <=? Z.lor (byte c) (byte d))
                ((RuneSelf <=? byte c) || (RuneSelf <=? byte d)) = true).
  { revert c d. apply forall_ascii2. by vm_compute. }
  by apply Bool.eqb_prop in H.
Qed.

Lemma fold_eq_ascii_lower (c d : ascii) :
  byte c < RuneSelf -> byte d < RuneSelf ->
  fold_eq_ascii (byte c) (byte d) = (lower_byte (byte c) =? lower_byte (byte d)).
Proof.
  assert (H : implb ((byte c <? RuneSelf) && (byte d <? RuneSelf))
                (Bool.eqb (fold_eq_ascii (byte c) (byte d))
                          (lower_byte (byte c) =? lower_byte (byte d))) = true).
  { revert c d. apply forall_ascii2. by vm_compute. }
  intros Hc Hd.
  apply Z.ltb_lt in Hc, Hd. rewrite Hc, Hd in H. simpl in H.
  by apply Bool.eqb_prop in H.
Qed.

Ltac no_test t :=
  lazymatch t with
  | context [if _ then _ else _] => fail
  | _ => idtac
  end.

Ltac split_tests :=
  repeat match goal with
  | |- context [Z.eqb ?a ?b] =>
      no_test a; no_test b; destruct (Z.eqb_spec a b); cbn [negb andb orb]; try lia
  | |- context [Z.ltb ?a ?b] =>
      no_test a; no_test b; destruct (Z.ltb_spec a b); cbn [negb andb orb]; try lia
  | |- context [Z.leb ?a ?b] =>
      no_test a; no_test b; destruct (Z.leb_spec a b); cbn [negb andb orb]; try lia
  end.

Lemma SimpleFold_orbit_K :
  SimpleFold 0x4B = 0x6B /\ SimpleFold 0x6B = 0x212A /\ SimpleFold 0x212A = 0x4B.
Proof. by vm_compute. Qed.

Lemma SimpleFold_orbit_S :
  SimpleFold 0x53 = 0x73 /\ SimpleFold 0x73 = 0x17F /\ SimpleFold 0x17F = 0x53.
Proof. by vm_compute. Qed.

Lemma SimpleFold_letter_cases (tr : Z) :
  0 <= tr < 0x80 ->
  tr = 0x4B \/ tr = 0x6B \/ tr = 0x53 \/ tr = 0x73
  \/ (0x41 <= tr <= 0x5A /\ tr <> 0x4B /\ tr <> 0x53 /\ SimpleFold tr = tr + 0x20
      /\ SimpleFold (tr + 0x20) = tr)
  \/ (0x61 <= tr <= 0x7A /\ tr <> 0x6B /\ tr <> 0x73 /\ SimpleFold tr = tr - 0x20)
  \/ ((tr < 0x41 \/ 0x5A < tr < 0x61 \/ 0x7A < tr) /\ SimpleFold tr = tr).
Proof.
  intros Htr. unfold SimpleFold. split_tests; try tauto.
  all: try (right; right; right; right; left; repeat split; lia).
  all: try (right; right; right; right; right; left; repeat split; lia).
  all: try (right; right; right; right; right; right; split; lia).
Qed.

Ltac fold_orbits :=
  destruct SimpleFold_orbit_K as (HK1 & HK2 & HK3);
  destruct SimpleFold_orbit_S as (HS1 & HS2 & HS3);
  cbn [fold_walk]; rewrite ?HK1, ?HK2, ?HK3, ?HS1, ?HS2, ?HS3.

Lemma fold_eq_rune_canon (sr tr : Z) :
  0 <= tr < 0x80 ->
  fold_eq_rune sr tr = (canon sr =? lower_byte tr).
Proof.
  intros Htr.
  destruct (Z.ltb_spec sr 0x80) as [Hsr|Hsr].
  - (* both below RuneSelf: the ASCII test *)
    unfold fold_eq_rune, canon, lower_byte, RuneSelf. split_tests.
  - unfold fold_eq_rune, RuneSelf.
    destruct (Z.eqb_spec tr sr); [lia|].
    destruct (Z.ltb_spec tr sr); [|lia].
    destruct (Z.ltb_spec sr 128); [lia|].
    unfold canon, lower_byte.
    destruct (SimpleFold_letter_cases tr Htr)
      as [->|[->|[->|[->|[(H1&H2&H3&H4&H5)|[(H1&H2&H3&H4)|(H1&H2)]]]]]].
    + fold_orbits. split_tests; fold_orbits; split_tests.
    + fold_orbits. split_tests; fold_orbits; split_tests.
    + fold_orbits. split_tests; fold_orbits; split_tests.
    + fold_orbits. split_tests; fold_orbits; split_tests.
    + cbn [fold_walk]. rewrite H4.
      destruct (Z.eqb_spec (tr + 32) tr); [lia|].
      destruct (Z.ltb_spec (tr + 32) sr); [|lia]. cbn [negb andb].
      rewrite H5, Z.eqb_refl. cbn [negb andb]. split_tests.
    + cbn [fold_walk]. rewrite H4.
      destruct (Z.eqb_spec (tr - 32) tr); [lia|].
      destruct (Z.ltb_spec (tr - 32) sr); [|lia]. cbn [negb andb].
      assert (Hback : SimpleFold (tr - 32) = tr).
      { unfold SimpleFold. split_tests. }
      rewrite Hback, Z.eqb_refl. cbn [negb andb]. split_tests.
    + cbn [fold_walk]. rewrite H2, Z.eqb_refl. cbn [negb andb]. split_tests.
Qed.

(** The loop that walks a folding orbit stops by itself within the four
    steps it is given: at its result the loop condition is false. *)
Lemma fold_walk_exits (sr tr : Z) :
  0 <= sr < 0x80 ->
  let r := fold_walk 4 sr tr (SimpleFold sr) in
  r = sr \/ tr <= r.
Proof.
  intros Hsr. cbv zeta.
  destruct (SimpleFold_letter_cases sr Hsr)
    as [->|[->|[->|[->|[(H1&H2&H3&H4&H5)|[(H1&H2&H3&H4)|(H1&H2)]]]]]].
  1-4: fold_orbits; split_tests; fold_orbits; split_tests.
  - cbn [fold_walk]; rewrite H4; split_tests; rewrite ?H5; split_tests.
  - assert (Hback : SimpleFold (sr - 32) = sr) by (unfold SimpleFold; split_tests).
    cbn [fold_walk]; rewrite H4; split_tests; rewrite ?Hback; split_tests.
  - cbn [fold_walk]; rewrite H2; split_tests.
Qed.

Lemma to_lower_eq (c d : ascii) :
  to_lower c = to_lower d <-> lower_byte (byte c) = lower_byte (byte d).
Proof.
  rewrite <- !byte_to_lower. split; [by intros ->|apply byte_inj].
Qed.

Lemma lower_byte_below (c : ascii) :
  (byte (to_lower c) <? RuneSelf) = (byte c <? RuneSelf).
Proof.
  rewrite byte_to_lower. unfold lower_byte, RuneSelf. split_tests.
Qed.

Lemma is_ascii_lower (s : string) : is_ascii (ascii_lower s) = is_ascii s.
Proof.
  induction s as [|c s IH]; simpl; [done|].
  by rewrite lower_byte_below, IH.
Qed.

Lemma same_up_to_case_ascii (s t : string) :
  same_up_to_case s t -> is_ascii s = is_ascii t.
Proof.
  unfold same_up_to_case. intros H.
  by rewrite <- (is_ascii_lower s), H, is_ascii_lower.
Qed.


(** Against an ASCII keyword the outcome of [EqualFold] does not depend on
    the case the keyword is written in, whatever the other string is. *)
Lemma EqualFold_hasUnicode_keyword_case (s : string) :
  forall (skip : nat) (t1 t2 : string),
    is_ascii t1 = true -> same_up_to_case t1 t2 ->
    EqualFold_hasUnicode skip s t1 = EqualFold_hasUnicode skip s t2.
Proof.
  induction s as [|c s IH]; intros skip t1 t2 Ha Hc.
  - destruct t1, t2; simpl; done.
  - destruct skip as [|k]; [|simpl; by apply IH].
    pose proof (same_up_to_case_ascii _ _ Hc) as Ha2. rewrite Ha in Ha2.
    cbn [EqualFold_hasUnicode].
    destruct (DecodeRuneInString (String c s)) as [sr size].
    destruct t1 as [|d1 t1], t2 as [|d2 t2]; try done.
    simpl in Ha, Ha2. symmetry in Ha2.
    apply andb_true_iff in Ha as [Hd1 Ht1], Ha2 as [Hd2 Ht2].
    rewrite Hd1, Hd2.
    unfold same_up_to_case in Hc. simpl in Hc. injection Hc as Hd Ht.
    apply to_lower_eq in Hd.
    apply Z.ltb_lt in Hd1, Hd2. unfold RuneSelf in *.
    pose proof (byte_range d1). pose proof (byte_range d2).
    rewrite !fold_eq_rune_canon, Hd by lia.
    destruct (canon sr =? lower_byte (byte d2)); [|done].
    by apply IH.
Qed.

Lemma EqualFold_keyword_case (s t1 t2 : string) :
  is_ascii t1 = true -> same_up_to_case t1 t2 ->
  EqualFold s t1 = EqualFold s t2.
Proof.
  revert t1 t2. induction s as [|c s IH]; intros t1 t2 Ha Hc.
  - destruct t1, t2; simpl; done.
  - pose proof (same_up_to_case_ascii _ _ Hc) as Ha2. rewrite Ha in Ha2.
    pose proof (EqualFold_hasUnicode_keyword_case (String c s) 0 _ _ Ha Hc)
      as Hslow.
    destruct t1 as [|d1 t1], t2 as [|d2 t2]; try done.
    cbn [EqualFold]. rewrite Hslow. clear Hslow.
    simpl in Ha, Ha2. symmetry in Ha2.
    apply andb_true_iff in Ha as [Hd1 Ht1], Ha2 as [Hd2 Ht2].
    unfold same_up_to_case in Hc. simpl in Hc. injection Hc as Hd Ht.
    rewrite !RuneSelf_lor.
    apply Z.ltb_lt in Hd1, Hd2.
    destruct (Z.leb_spec RuneSelf (byte d1)); [lia|].
    destruct (Z.leb_spec RuneSelf (byte d2)); [lia|].
    rewrite !orb_false_r.
    destruct (Z.leb_spec RuneSelf (byte c)); [done|].
    rewrite !fold_eq_ascii_lower by done.
    apply to_lower_eq in Hd. rewrite Hd.
    destruct (_ =? _); [|done]. by apply IH.
Qed.

(** The fold is Unicode's: the Kelvin sign matches the letter k and the
    long s the letter s. *)
Example EqualFold_kelvin_long_s :
  EqualFold ("par" +:+ kelvin +:+ "ed") "PARKED" = true
  /\ EqualFold ("pau" +:+ long_s +:+ "ed") "paused" = true
  /\ EqualFold ("pau" +:+ long_s +:+ "e") "paused" = false.
Proof. by vm_compute. Qed.














(** ** The flag parsers of the enum-like types *)

Section FlagValueProperties.

Variable quote : string -> string.

(** The tests of the three [Set] methods, with each keyword in the case of
    its constant. *)
Lemma RunState_Set_canonical (s : RunState) (str : string) :
  RunState_Set quote s str =
    if EqualFold str NotStarted then (NotStarted, None)
    else if EqualFold str Running then (Running, None)
    else if EqualFold str Error then (Error, None)
    else if EqualFold str Done then (Done, None)
    else if EqualFold str Paused then (Paused, None)
    else if EqualFold str Aborted then (Aborted, None)
    else if EqualFold str Deleted then (Deleted, None)
    else (s, Some (errors.Errorf quote "invalid state " str)).
Proof.
  unfold RunState_Set.
  rewrite (EqualFold_keyword_case str "not_started" NotStarted),
    (EqualFold_keyword_case str "running" Running),
    (EqualFold_keyword_case str "error" Error),
    (EqualFold_keyword_case str "done" Done),
    (EqualFold_keyword_case str "paused" Paused),
    (EqualFold_keyword_case str "aborted" Aborted),
    (EqualFold_keyword_case str "deleted" Deleted); done.
Qed.

Lemma ScheduleState_Set_canonical (s : ScheduleState) (str : string) :
  ScheduleState_Set quote s str =
    if EqualFold str SActive then (SActive, None)
    else if EqualFold str SPaused then (SPaused, None)
    else if EqualFold str SDeleted then (SDeleted, None)
    else (s, Some (errors.Errorf quote "invalid state " str)).
Proof.
  unfold ScheduleState_Set.
  rewrite (EqualFold_keyword_case str "active" SActive),
    (EqualFold_keyword_case str "paused" SPaused),
    (EqualFold_keyword_case str "deleted" SDeleted); done.
Qed.

Lemma Parallelism_Set_canonical (p : Parallelism) (s : string) :
  Parallelism_Set quote p s =
    if EqualFold s Sequential then (Sequential, None)
    else if EqualFold s Parallel then (Parallel, None)
    else if EqualFold s DatacenterAware then (DatacenterAware, None)
    else (p, Some (errors.Errorf quote "invalid parallelism " s)).
Proof.
  unfold Parallelism_Set.
  rewrite (EqualFold_keyword_case s "sequential" Sequential),
    (EqualFold_keyword_case s "parallel" Parallel),
    (EqualFold_keyword_case s "datacenter_aware" DatacenterAware); done.
Qed.






End FlagValueProperties.



(** C10: each of the three parsers, called with a token that matches no
    defined variant, returns an error and leaves the stored value as it was;
    the value is assigned on a successful parse only. *)
Theorem enum_flags_error_keeps_value (quote : string -> string) :
  keeps_value_on_error RunState_String (RunState_Set quote) RunState_variants
  /\ keeps_value_on_error ScheduleState_String (ScheduleState_Set quote)
       ScheduleState_variants
  /\ keeps_value_on_error Parallelism_String (Parallelism_Set quote)
       Parallelism_variants.
Proof.
  repeat split.
  - intros tok stored Hnone. rewrite RunState_Set_canonical.
    unfold RunState_String in Hnone. rewrite !Hnone by (simpl; tauto). eauto.
  - intros tok stored err. unfold RunState_Set. by repeat case_match.
  - intros tok stored Hnone. rewrite ScheduleState_Set_canonical.
    unfold ScheduleState_String in Hnone. rewrite !Hnone by (simpl; tauto). eauto.
  - intros tok stored err. unfold ScheduleState_Set. by repeat case_match.
  - intros tok stored Hnone. rewrite Parallelism_Set_canonical.
    unfold Parallelism_String in Hnone. rewrite !Hnone by (simpl; tauto). eauto.
  - intros tok stored err. unfold Parallelism_Set. by repeat case_match.
Qed.

Lemma enum_flags_error_keeps_value_witness :
  (exists err, RunState_Set (fun s => s) Running "started" = (Running, Some err))
  /\ (exists err, ScheduleState_Set (fun s => s) "" "running" = ("", Some err))
  /\ (exists err, Parallelism_Set (fun s => s) Parallel "" = (Parallel, Some err)).
Proof.
  pose proof (enum_flags_error_keeps_value (fun s => s))
    as ((HR & _) & (HS & _) & (HP & _)).
  split; [|split].
  - apply (HR "started" Running). intros v Hv. simpl in Hv.
    repeat (destruct Hv as [<-|Hv]; [reflexivity|]). destruct Hv.
  - apply (HS "running" ""). intros v Hv. simpl in Hv.
    repeat (destruct Hv as [<-|Hv]; [reflexivity|]). destruct Hv.
  - apply (HP "" Parallel). intros v Hv. simpl in Hv.
    repeat (destruct Hv as [<-|Hv]; [reflexivity|]). destruct Hv.
Defined.

(** ** The date flag *)

Lemma byte_digit_char (n : Z) : 0 <= n <= 9 -> byte (digit_char n) = 0x30 + n.
Proof.
  intros Hn. unfold byte, digit_char.
  rewrite N_ascii_embedding by lia. lia.
Qed.


Lemma is_digit_range (c : ascii) :
  is_digit c = true <-> 0 <= byte c - 0x30 <= 9.
Proof. unfold is_digit. lia. Qed.

Lemma isDigit_0 (c : ascii) (s : string) : isDigit (String c s) 0 = is_digit c.
Proof. reflexivity. Qed.

Lemma isDigit_1 (c d : ascii) (s : string) :
  isDigit (String c (String d s)) 1 = is_digit d.
Proof. reflexivity. Qed.

Lemma isDigit_1_short (c : ascii) : isDigit (String c "") 1 = false.
Proof. reflexivity. Qed.

(** [getnum] with [fixed]: exactly two digits. *)
Lemma getnum_fixed (s : string) (n : Z) (rest : string) :
  getnum s true = Some (n, rest)
  <-> exists c1 c2, s = String c1 (String c2 rest)
        /\ is_digit c1 = true /\ is_digit c2 = true
        /\ n = (byte c1 - 0x30) * 10 + (byte c2 - 0x30).
Proof.
  unfold getnum. split.
  - destruct s as [|c1 [|c2 s]]; [done| |].
    + rewrite isDigit_0, isDigit_1_short. by destruct (is_digit c1).
    + rewrite isDigit_0, isDigit_1.
      destruct (is_digit c1) eqn:H1; [|done].
      destruct (is_digit c2) eqn:H2; [|done]. simpl.
      intros [= <- <-]. by exists c1, c2.
  - intros (c1 & c2 & -> & H1 & H2 & ->).
    rewrite isDigit_0, isDigit_1, H1, H2. reflexivity.
Qed.

Lemma skip_hyphen (s rest : string) :
  skip s "-" = Some rest <-> s = String "-" rest.
Proof.
  destruct s as [|c s]; simpl; [done|].
  destruct (Z.eqb_spec (byte c) (byte "-")) as [He|Hne].
  - apply byte_inj in He as ->. split; [by intros [= ->] | by intros [= ->]].
  - split; [done|]. intros [= -> ->]. done.
Qed.

(** [leadingInt] on a run of up to four digits below the overflow tests. *)
Lemma leadingInt_from_step (x : Z) (c : ascii) (s : string) :
  0 <= x < 1000 ->
  leadingInt_from x (String c s)
  = if is_digit c then leadingInt_from (x * 10 + (byte c - 0x30)) s
    else Some (x, String c s).
Proof.
  intros Hx. cbn [leadingInt_from]. unfold is_digit.
  assert (H63 : 2 ^ 63 = 9223372036854775808) by reflexivity.
  assert (H63d : 2 ^ 63 / 10 = 922337203685477580) by reflexivity.
  rewrite H63d, H63.
  destruct (Z.ltb_spec (byte c) 48), (Z.ltb_spec 57 (byte c)),
    (Z.leb_spec 48 (byte c)), (Z.leb_spec (byte c) 57); simpl; try lia; try done.
  destruct (Z.ltb_spec 922337203685477580 x); [lia|].
  destruct (Z.ltb_spec 9223372036854775808 (x * 10 + byte c - 48)); [lia|].
  f_equal. lia.
Qed.

(** The year chunk: four digits. *)
Lemma atoi_year (c0 c1 c2 c3 : ascii) (year : Z) :
  is_digit c0 = true ->
  atoi (String c0 (String c1 (String c2 (String c3 "")))) = Some year
  <-> is_digit c1 = true /\ is_digit c2 = true /\ is_digit c3 = true
      /\ year = (byte c0 - 0x30) * 1000 + (byte c1 - 0x30) * 100
                + (byte c2 - 0x30) * 10 + (byte c3 - 0x30).
Proof.
  intros H0. pose proof H0 as R0. apply is_digit_range in R0.
  unfold atoi.
  assert (Hsign : (byte c0 =? 45) || (byte c0 =? 43) = false).
  { unfold is_digit in H0. lia. }
  rewrite Hsign. unfold leadingInt.
  rewrite leadingInt_from_step, H0 by lia.
  rewrite leadingInt_from_step by lia.
  destruct (is_digit c1) eqn:H1; [|simpl; split; [done|by intros [? _]]].
  pose proof H1 as R1. apply is_digit_range in R1.
  rewrite leadingInt_from_step by lia.
  destruct (is_digit c2) eqn:H2; [|simpl; split; [done|by intros (_ & ? & _)]].
  pose proof H2 as R2. apply is_digit_range in R2.
  rewrite leadingInt_from_step by lia.
  destruct (is_digit c3) eqn:H3; [|simpl; split; [done|by intros (_ & _ & ? & _)]].
  simpl. split.
  - intros [= <-]. repeat split; lia.
  - intros (_ & _ & _ & ->). f_equal. lia.
Qed.

(** What [Parse] accepts under the layout: ten bytes, digits around two
    hyphens, and a month from 1 to 12. *)
Lemma Parse_fields_accepts (value : string) (year month day : Z) :
  Parse_fields value = inr (year, month, day)
  <-> exists y0 y1 y2 y3 m0 m1 d0 d1 : ascii,
      value = String y0 (String y1 (String y2 (String y3 (String "-"
                (String m0 (String m1 (String "-"
                   (String d0 (String d1 "")))))))))
      /\ forallb is_digit [y0; y1; y2; y3; m0; m1; d0; d1] = true
      /\ year = (byte y0 - 0x30) * 1000 + (byte y1 - 0x30) * 100
                + (byte y2 - 0x30) * 10 + (byte y3 - 0x30)
      /\ month = (byte m0 - 0x30) * 10 + (byte m1 - 0x30)
      /\ day = (byte d0 - 0x30) * 10 + (byte d1 - 0x30)
      /\ 1 <= month <= 12.
Proof.
  split.
  - unfold Parse_fields.
    destruct value as [|y0 [|y1 [|y2 [|y3 rest]]]]; try done.
    change (String.length _ <? 4)%nat with false.
    rewrite isDigit_0. cbn [orb].
    destruct (is_digit y0) eqn:H0; [|done]. cbn [negb].
    change (string_take 4 _) with (String y0 (String y1 (String y2 (String y3 "")))).
    change (string_drop 4 _) with rest.
    destruct (atoi _) as [yr|] eqn:Hy; [|done].
    apply atoi_year in Hy as (H1 & H2 & H3 & ->); [|done].
    destruct (skip rest "-") as [r1|] eqn:Hs1; [|done].
    apply skip_hyphen in Hs1 as ->.
    destruct (getnum r1 true) as [[mo r2]|] eqn:Hm; [|done].
    apply getnum_fixed in Hm as (m0 & m1 & -> & Hm0 & Hm1 & ->).
    destruct (Z.leb_spec ((byte m0 - 48) * 10 + (byte m1 - 48)) 0); [done|].
    destruct (Z.ltb_spec 12 ((byte m0 - 48) * 10 + (byte m1 - 48))); [done|].
    cbn [orb].
    destruct (skip r2 "-") as [r3|] eqn:Hs2; [|done].
    apply skip_hyphen in Hs2 as ->.
    destruct (getnum r3 true) as [[dy r4]|] eqn:Hd; [|done].
    apply getnum_fixed in Hd as (d0 & d1 & -> & Hd0 & Hd1 & ->).
    destruct r4; [|done]. simpl. intros [= <- <- <-].
    exists y0, y1, y2, y3, m0, m1, d0, d1.
    cbn [forallb]. rewrite H0, H1, H2, H3, Hm0, Hm1, Hd0, Hd1.
    repeat split; lia.
  - intros (y0 & y1 & y2 & y3 & m0 & m1 & d0 & d1 & -> & Hdig & -> & -> & -> & Hm).
    cbn [forallb] in Hdig. rewrite !andb_true_iff in Hdig.
    destruct Hdig as (H0 & H1 & H2 & H3 & Hm0 & Hm1 & Hd0 & Hd1 & _).
    unfold Parse_fields.
    change (String.length _ <? 4)%nat with false.
    rewrite isDigit_0, H0. cbn [orb negb].
    change (string_take 4 _) with (String y0 (String y1 (String y2 (String y3 "")))).
    rewrite (proj2 (atoi_year y0 y1 y2 y3 _ H0)) by (repeat split; done).
    cbn [string_drop].
    rewrite (proj2 (skip_hyphen _ _) eq_refl).
    rewrite (proj2 (getnum_fixed _ _ _)) by (exists m0, m1; repeat split; done).
    destruct (Z.leb_spec ((byte m0 - 48) * 10 + (byte m1 - 48)) 0); [lia|].
    destruct (Z.ltb_spec 12 ((byte m0 - 48) * 10 + (byte m1 - 48))); [lia|].
    cbn [orb].
    rewrite (proj2 (skip_hyphen _ _) eq_refl).
    rewrite (proj2 (getnum_fixed _ _ _)) by (exists d0, d1; repeat split; done).
    reflexivity.
Qed.

Lemma is_digit_digit_char (n : Z) : 0 <= n <= 9 -> is_digit (digit_char n) = true.
Proof.
  intros Hn. unfold is_digit. rewrite byte_digit_char by done. lia.
Qed.

Lemma Parse_fields_format_date (year month day : Z) :
  0 <= year <= 9999 -> 1 <= month <= 12 -> 0 <= day <= 99 ->
  Parse_fields (format_date year month day) = inr (year, month, day).
Proof.
  intros Hy Hm Hd. apply Parse_fields_accepts.
  eexists _, _, _, _, _, _, _, _. split; [reflexivity|].
  assert (Hdig : forall n, 0 <= n mod 10 <= 9)
    by (intros n; pose proof (Z.mod_pos_bound n 10); lia).
  cbn [forallb]. rewrite !is_digit_digit_char by apply Hdig.
  rewrite !byte_digit_char by apply Hdig.
  repeat split; try done.
  - Z.div_mod_to_equations. lia.
  - Z.div_mod_to_equations. lia.
  - Z.div_mod_to_equations. lia.
  - lia.
  - lia.
Qed.




(** The first day of year 1 is the zero instant of Go: it parses, and the
    value stored is the one of a flag that was not given.  As a bound of
    list-repairs it therefore counts as not supplied. *)
Example year_one_is_the_zero_value :
  myTime_Set (mk_myTime (mkTime 86400 0)) "0001-01-01" = (myTime_zero, None)
  /\ myTime_IsZero myTime_zero = true.
Proof. by vm_compute. Qed.

(** ** Insertion sort meets the contract of sort.Slice *)

Section InsertionSort.

Context {A : Type} (less : A -> A -> option bool) (lt : A -> A -> bool).
Variable l : list A.
Hypothesis less_lt : forall x y, In x l -> In y l -> less x y = Some (lt x y).
Hypothesis lt_swo : StrictWeakOrder lt l.

Lemma lt_asym (x y : A) : In x l -> In y l -> lt x y = true -> lt y x = false.
Proof.
  intros Hx Hy Hxy. destruct (lt y x) eqn:Hyx; [|done].
  pose proof (swo_trans lt l lt_swo x y x Hx Hy Hx Hxy Hyx) as Hxx.
  by rewrite (swo_irrefl lt l lt_swo x Hx) in Hxx.
Qed.

(** The sorted prefix is kept last element first: going down it, no
    element is less than the one that follows. *)
Let later (x y : A) : Prop := lt x y = false.

Lemma insertion_insert_spec (x : A) (rprefix : list A) :
  In x l -> incl rprefix l -> Sorted later rprefix ->
  exists r, insertion_insert less x rprefix = Some r
            /\ Permutation (x :: rprefix) r
            /\ Sorted later r
            /\ (forall y, HdRel later y rprefix -> later y x -> HdRel later y r).
Proof.
  intros Hx. induction rprefix as [|p rp IH]; intros Hincl Hsorted.
  - exists [x]. simpl. repeat split; try done.
    + repeat constructor.
    + intros y _ Hyx. by constructor.
  - assert (Hp : In p l) by (apply Hincl; by left).
    assert (Hrp : incl rp l) by (intros z Hz; apply Hincl; by right).
    simpl. rewrite (less_lt x p Hx Hp).
    apply Sorted_inv in Hsorted as [Hsorted Hhd].
    destruct (lt x p) eqn:Hxp.
    + destruct (IH Hrp Hsorted) as (r & -> & Hperm & Hsr & Hhdr).
      exists (p :: r). repeat split.
      * rewrite perm_swap. by constructor.
      * constructor; [done|]. apply Hhdr; [done|].
        by apply lt_asym.
      * intros y Hy _. apply HdRel_inv in Hy. by constructor.
    + exists (x :: p :: rp). repeat split; try done.
      * constructor; [by constructor|]. by constructor.
      * intros y _ Hyx. by constructor.
Qed.

Lemma insertion_loop_spec (rest rprefix : list A) :
  incl rprefix l -> incl rest l -> Sorted later rprefix ->
  exists l', insertion_loop less rprefix rest = Some l'
             /\ Permutation (rev rprefix ++ rest) l'
             /\ Sorted (fun x y => lt y x = false) l'.
Proof.
  revert rprefix. induction rest as [|x rest IH]; intros rprefix Hrp Hrest Hs.
  - exists (rev rprefix). simpl. rewrite app_nil_r. repeat split; [done|].
    rewrite rev_alt. exact (Sorted_reverse later _ Hs).
  - assert (Hx : In x l) by (apply Hrest; by left).
    destruct (insertion_insert_spec x rprefix Hx Hrp Hs)
      as (r & Hr & Hperm & Hsr & _).
    simpl. rewrite Hr.
    destruct (IH r) as (l' & Hl' & Hperm' & Hs'); try done.
    + intros z Hz. apply (Permutation_in z (Permutation_sym Hperm)) in Hz.
      destruct Hz as [<-|Hz]; [done | by apply Hrp].
    + intros z Hz. apply Hrest. by right.
    + exists l'. repeat split; try done.
      rewrite <- Hperm'. rewrite <- Hperm. simpl.
      rewrite <- app_assoc. simpl. done.
Qed.

Lemma insertionSort_incl (data : list A) :
  incl data l ->
  exists l', insertionSort less data = Some l'
             /\ Permutation data l'
             /\ Sorted (fun x y => lt y x = false) l'.
Proof.
  unfold insertionSort. destruct data as [|x rest]; intros Hincl.
  - exists []. repeat split; constructor.
  - destruct (insertion_loop_spec rest [x]) as (l' & Hl' & Hperm & Hs).
    + intros z [<-|[]]. apply Hincl. by left.
    + intros z Hz. apply Hincl. by right.
    + repeat constructor.
    + exists l'. repeat split; done.
Qed.

Lemma insertionSort_spec :
  exists l', insertionSort less l = Some l'
             /\ Permutation l l'
             /\ Sorted (fun x y => lt y x = false) l'.
Proof. apply insertionSort_incl, incl_refl. Qed.

End InsertionSort.

#[export] Instance insertion_sorter : SliceSorter := {|
  sort_Slice := @insertionSort;
  sort_Slice_contract := fun A less lt l Hless Hswo =>
    insertionSort_spec less lt l Hless Hswo
|}.

(** ** Sorting schedules by next activation *)

Lemma Time_Before_irrefl (t : Time) : Time_Before t t = false.
Proof. apply Time_Before_false, Time_le_refl. Qed.

Lemma Time_Before_trans (t u v : Time) :
  Time_Before t u = true -> Time_Before u v = true -> Time_Before t v = true.
Proof.
  intros H1 H2. destruct (Time_Before t v) eqn:H3; [done|].
  apply Time_Before_false in H3.
  assert (Hn : forall a b, Time_Before a b = true -> ~ Time_le b a).
  { intros a b Hab Hle. apply Time_Before_false in Hle. congruence. }
  apply Hn in H1, H2. unfold Time_le in *. lia.
Qed.

Lemma Time_Before_incomp_trans (t u v : Time) :
  Time_Before t u = false -> Time_Before u v = false -> Time_Before t v = false.
Proof.
  rewrite !Time_Before_false. intros H1 H2. by apply (Time_le_trans v u t).
Qed.

Lemma less_NextActivation_total (cmp : Time -> Time -> bool)
    (res : list RepairSchedule.t) :
  Forall has_next res ->
  forall x y, In x res -> In y res ->
    less_NextActivation cmp x y = Some (cmp (next x) (next y)).
Proof.
  intros Hall x y Hx Hy. rewrite Forall_forall in Hall.
  destruct (Hall x) as [tx Hx']; [by apply list_elem_of_In|].
  destruct (Hall y) as [ty Hy']; [by apply list_elem_of_In|].
  unfold less_NextActivation, next. by rewrite Hx', Hy'.
Qed.

Lemma before_swo (res : list RepairSchedule.t) :
  StrictWeakOrder (fun a b => Time_Before (next a) (next b)) res.
Proof.
  split.
  - intros x _. apply Time_Before_irrefl.
  - intros x y z _ _ _. apply Time_Before_trans.
  - intros x y z _ _ _. apply Time_Before_incomp_trans.
Qed.

Lemma after_swo (res : list RepairSchedule.t) :
  StrictWeakOrder (fun a b => Time_After (next a) (next b)) res.
Proof.
  split.
  - intros x _. rewrite Time_After_Before. apply Time_Before_irrefl.
  - intros x y z _ _ _. rewrite !Time_After_Before.
    intros H1 H2. by apply (Time_Before_trans _ (next y)).
  - intros x y z _ _ _. rewrite !Time_After_Before.
    intros H1 H2. by apply (Time_Before_incomp_trans _ (next y)).
Qed.

Lemma Sorted_weaken {A : Type} (R R' : A -> A -> Prop) (l : list A) :
  (forall a b, R a b -> R' a b) -> Sorted R l -> Sorted R' l.
Proof.
  intros Himpl. induction 1 as [|a l Hs IH Hhd]; constructor; [done|].
  destruct Hhd; constructor. by apply Himpl.
Qed.

(** From "no element is less than its predecessor" to "every element is
    activated no later than all that follow". *)
Lemma sorted_by_next (R : Time -> Time -> Prop) (l : list RepairSchedule.t)
    (rel : RepairSchedule.t -> RepairSchedule.t -> Prop) :
  (forall t u v, R t u -> R u v -> R t v) ->
  (forall a b, has_next a -> has_next b -> R (next a) (next b) -> rel a b) ->
  Forall has_next l ->
  Sorted (fun a b => R (next a) (next b)) l ->
  StronglySorted rel l.
Proof.
  intros Htrans Hrel Hall Hs.
  apply Sorted.Sorted_StronglySorted in Hs.
  2: { intros a b c. apply Htrans. }
  induction Hs as [|a l Hs IH Hfa]; [constructor|].
  apply Forall_cons in Hall as [Ha Hall].
  constructor; [by apply IH|].
  rewrite Forall_forall in Hfa, Hall |- *.
  intros b Hb. apply Hrel; auto.
Qed.

Lemma activated_no_later_of_next (a b : RepairSchedule.t) :
  has_next a -> has_next b -> Time_le (next a) (next b) ->
  activated_no_later a b.
Proof.
  unfold next. intros [ta Ha] [tb Hb]. rewrite Ha, Hb. simpl.
  intros Hle. by exists ta, tb.
Qed.

(** C4: on a list of schedules that all carry a next-activation
    timestamp, and with any implementation of [sort.Slice] that meets its
    contract, sorting by next activation returns (it does not panic, equal
    timestamps or not); what it returns is a permutation of the input; and
    it is in non-decreasing order of the timestamp when the reverse flag is
    unset, in non-increasing order when it is set. *)
Theorem sortSchedules_by_next_activation `{SliceSorter}
    (res : list RepairSchedule.t) (reverse : bool) :
  Forall has_next res ->
  exists sorted,
    sortSchedules res ScheduleSortByNextActivation reverse = Some sorted
    /\ Permutation res sorted
    /\ if reverse
       then StronglySorted (fun a b => activated_no_later b a) sorted
       else StronglySorted activated_no_later sorted.
Proof.
  intros Hall. unfold sortSchedules.
  change (String.eqb ScheduleSortByNextActivation ScheduleSortByNextActivation)
    with true.
  destruct reverse; cbn [negb andb].
  - destruct (sort_Slice_contract _ (less_NextActivation Time_After)
                (fun a b => Time_After (next a) (next b)) res)
      as (sorted & -> & Hperm & Hsorted).
    { by apply less_NextActivation_total. }
    { apply after_swo. }
    exists sorted. repeat split; [done|].
    assert (Hall' : Forall has_next sorted) by (by rewrite <- Hperm).
    apply (sorted_by_next (fun t u => Time_le u t)); try done.
    + intros t u v H1 H2. by apply (Time_le_trans v u t).
    + intros a b Ha Hb Hle. by apply activated_no_later_of_next.
    + eapply Sorted_weaken; [|exact Hsorted].
      intros a b Hab. cbv beta in Hab. rewrite Time_After_Before in Hab.
      by apply Time_Before_false in Hab.
  - destruct (sort_Slice_contract _ (less_NextActivation Time_Before)
                (fun a b => Time_Before (next a) (next b)) res)
      as (sorted & -> & Hperm & Hsorted).
    { by apply less_NextActivation_total. }
    { apply before_swo. }
    exists sorted. repeat split; [done|].
    assert (Hall' : Forall has_next sorted) by (by rewrite <- Hperm).
    apply (sorted_by_next Time_le); try done.
    + apply Time_le_trans.
    + apply activated_no_later_of_next.
    + eapply Sorted_weaken; [|exact Hsorted].
      intros a b Hab. by apply Time_Before_false in Hab.
Qed.

(** Three schedules, two of them with the same timestamp, sorted with
    insertion sort. *)
Lemma sortSchedules_by_next_activation_witness :
  exists sorted,
    @sortSchedules insertion_sorter
      [schedule_at "a" (mkTime 300 0); schedule_at "b" (mkTime 100 0);
       schedule_at "c" (mkTime 300 0)]
      ScheduleSortByNextActivation false = Some sorted
    /\ Permutation
         [schedule_at "a" (mkTime 300 0); schedule_at "b" (mkTime 100 0);
          schedule_at "c" (mkTime 300 0)] sorted
    /\ StronglySorted activated_no_later sorted.
Proof.
  apply (@sortSchedules_by_next_activation insertion_sorter
           [schedule_at "a" (mkTime 300 0); schedule_at "b" (mkTime 100 0);
            schedule_at "c" (mkTime 300 0)] false).
  repeat (constructor; [eexists; reflexivity|]). constructor.
Defined.

Example sortSchedules_insertion_example :
  @sortSchedules insertion_sorter
    [schedule_at "a" (mkTime 300 0); schedule_at "b" (mkTime 100 0);
     schedule_at "c" (mkTime 300 0)]
    ScheduleSortByNextActivation false
  = Some [schedule_at "b" (mkTime 100 0); schedule_at "a" (mkTime 300 0);
          schedule_at "c" (mkTime 300 0)]
  /\ @sortSchedules insertion_sorter
       [schedule_at "a" (mkTime 300 0); schedule_at "b" (mkTime 100 0);
        schedule_at "c" (mkTime 300 0)]
       ScheduleSortByNextActivation true
     = Some [schedule_at "a" (mkTime 300 0); schedule_at "c" (mkTime 300 0);
             schedule_at "b" (mkTime 100 0)].
Proof. by vm_compute. Qed.

(** ** Response handling and help *)

Section CommandProperties.

Context `{SliceSorter}.
Variable host : string.
Variable decode_strings : string -> error + list string.
Variable decode_Cluster : string -> error + Cluster.t.
Variable decode_RepairRun : string -> error + RepairRun.t.
Variable decode_RepairRuns : string -> error + list RepairRun.t.
Variable decode_RepairSchedule : string -> error + RepairSchedule.t.
Variable decode_RepairSchedules : string -> error + list RepairSchedule.t.
Variable Encode : list (string * string) -> string.
Variable Itoa : Z -> string.
Variable Sprintf_f3 : float64 -> string.

(** The program run against a service with the given behaviour. *)
Local Abbreviation exec_with http_do :=
  (exec host http_do decode_strings decode_Cluster decode_RepairRun
     decode_RepairRuns decode_RepairSchedule decode_RepairSchedules
     Encode Itoa Sprintf_f3).

(** Every operation but [listClusters] tests the status: against a
    service that answers [resp] with a status other than the expected
    one, an invocation that reaches the service returns the body of
    [resp] as its error and decodes nothing. *)
Lemma unexpected_status_is_terminal (resp : Response) (inv : Invocation) :
  fn_of inv <> fn_listClusters ->
  StatusCode resp <> expected_status (fn_of inv) ->
  let run := exec_with (fun _ _ => inr resp) inv in
  existsb is_HTTP (fst run) = true ->
  snd run = Return (Some (errors.Str (Body resp)))
  /\ existsb is_Decode (fst run) = false.
Proof.
  intros Hfn Hstatus.
  assert (Hok : expected_status (fn_of inv) = StatusOK ->
                negb (StatusCode resp =? StatusOK) = true).
  { intros <-. apply negb_true_iff, Z.eqb_neq, Hstatus. }
  assert (Hcreated : expected_status (fn_of inv) = StatusCreated ->
                     negb (StatusCode resp =? StatusCreated) = true).
  { intros <-. apply negb_true_iff, Z.eqb_neq, Hstatus. }
  unfold exec_with.
  destruct inv as [p|p| |p|p|p|p|p|p|p|p|p|p|p|p|p]; try done;
    destruct p as [|err|fl]; simpl; try done;
    unfold addCluster, viewCluster, addRepair, viewRepair, listRepairs,
      pauseRepair, resumeRepair, deleteRepair, changeRepairState,
      addSchedule, viewSchedule, listSchedules, nextSchedule,
      callListSchedules, pauseSchedule, resumeSchedule, deleteSchedule,
      changeScheduleState;
    simpl in Hok, Hcreated;
    rewrite ?(Hok eq_refl), ?(Hcreated eq_refl);
    repeat case_match; simpl; try done.
  all: rewrite ?existsb_app; simpl; rewrite ?orb_false_r; try done.
Qed.

(** The message of the error returned on an unexpected status is the body. *)
Lemma message_Str (quote : string -> string) (body : string) :
  errors.message quote (errors.Str body) = body.
Proof. reflexivity. Qed.

(** C5 (the code departs from it): [listClusters] never looks at the
    status of the response.  Whatever the status, it does what it does on
    200 with the same body: it hands the body to the JSON decoder, and it
    never returns the body as its error. *)
Theorem listClusters_ignores_status (resp : Response) :
  let run := listClusters host (fun _ _ => inr resp) decode_strings in
  run = listClusters host
          (fun _ _ => inr (mkResponse StatusOK (Body resp))) decode_strings
  /\ existsb is_Decode (fst run) = true
  /\ snd run <> Return (Some (errors.Str (Body resp))).
Proof.
  unfold listClusters. simpl.
  destruct (decode_strings (Body resp)); simpl; repeat split; done.
Qed.

(** C9: an invocation whose flag set reports that help was requested
    returns nil and does nothing: no request, no decoding, no print; one
    whose flag set reports another error returns that error, equally
    without doing anything. *)
Theorem help_requested_returns_nil
    (http_do : string -> string -> error + Response) (inv : Invocation) :
  (flag_report inv = Some HelpRequested ->
   exec_with http_do inv = ([], Return None))
  /\ (forall err, flag_report inv = Some (ParseFailed err) ->
      exec_with http_do inv = ([], Return (Some err))).
Proof.
  split; [|intros err].
  all: destruct inv as [p|p| |p|p|p|p|p|p|p|p|p|p|p|p|p]; try done;
    destruct p as [|e|fl]; simpl; try done.
  all: by intros [= ->].
Qed.

End CommandProperties.

Definition exec_offline (inv : Invocation) : Run :=
  @exec insertion_sorter "localhost:8080" unreachable
    (fun _ => inl (errors.foreign "no body"))
    (fun _ => inl (errors.foreign "no body"))
    (fun _ => inl (errors.foreign "no body"))
    (fun _ => inl (errors.foreign "no body"))
    (fun _ => inl (errors.foreign "no body"))
    (fun _ => inl (errors.foreign "no body"))
    (fun _ => "") (fun _ => "") (fun _ => "") inv.

Lemma help_requested_returns_nil_witness :
  exec_offline (Inv_listRepairs ErrHelp) = ([], Return None)
  /\ exec_offline (Inv_viewCluster (ParseErr (errors.foreign "flag provided but not defined: -x")))
     = ([], Return (Some (errors.foreign "flag provided but not defined: -x"))).
Proof.
  split.
  - apply (proj1 (@help_requested_returns_nil insertion_sorter "localhost:8080"
             _ _ _ _ _ _ _ _ _ unreachable (Inv_listRepairs ErrHelp))).
    reflexivity.
  - apply (proj2 (@help_requested_returns_nil insertion_sorter "localhost:8080"
             _ _ _ _ _ _ _ _ _ unreachable (Inv_viewCluster (ParseErr _)))).
    reflexivity.
Defined.

(** [listClusters] has no flag set: asked for help it calls the service all
    the same. *)
Example listClusters_help_calls :
  flag_report Inv_listClusters = None
  /\ fst (exec_offline Inv_listClusters) = [EvHTTP "GET" "http://localhost:8080/cluster"].
Proof. by vm_compute. Qed.

(** ** The command table *)

Lemma findCommand_in_found (groups : list (string * gmap string commandFn))
    (name : string) (fn : commandFn) :
  findCommand_in groups name = Some fn ->
  exists g, In g groups /\ snd g !! name = Some fn.
Proof.
  induction groups as [|[gname group] rest IH]; simpl; [done|].
  destruct (group !! name) as [fn'|] eqn:Hl.
  - intros [= ->]. exists (gname, group). auto.
  - intros Hrest. destruct (IH Hrest) as (g & Hg & Hfn). eauto.
Qed.

Lemma commands_without_nextSchedule (g : string * gmap string commandFn)
    (name : string) :
  In g commands -> snd g !! name <> Some fn_nextSchedule.
Proof.
  unfold commands. intros [<-|[<-|[<-|[]]]]; simpl;
    rewrite !lookup_insert, lookup_empty; by repeat case_decide.
Qed.

(** Whatever the order in which the range of [findCommand] visits the
    groups, no name leads to [nextSchedule]. *)
Lemma findCommand_any_order_without_nextSchedule
    (groups : list (string * gmap string commandFn)) (name : string) :
  Permutation commands groups ->
  findCommand_in groups name <> Some fn_nextSchedule.
Proof.
  intros Hperm Hfound.
  destruct (findCommand_in_found _ _ _ Hfound) as (g & Hg & Hfn).
  apply (commands_without_nextSchedule g name); [|done].
  by apply (Permutation_in g (Permutation_sym Hperm)).
Qed.

(** C8 (the code departs from it): the command table has the fifteen
    subcommands of the three groups and no entry for [nextSchedule]: the
    name [next-schedule] is not found, and no name at all is dispatched to
    it. *)
Theorem nextSchedule_not_dispatched :
  findCommand "next-schedule" = None
  /\ (forall name, findCommand name <> Some fn_nextSchedule)
  /\ map (fun name => findCommand name)
       ["add-cluster"; "view-cluster"; "list-clusters";
        "add-repair"; "view-repair"; "list-repairs"; "pause-repair";
        "resume-repair"; "delete-repair";
        "add-schedule"; "view-schedule"; "list-schedules"; "pause-schedule";
        "resume-schedule"; "delete-schedule"]
     = map Some
         [fn_addCluster; fn_viewCluster; fn_listClusters;
          fn_addRepair; fn_viewRepair; fn_listRepairs; fn_pauseRepair;
          fn_resumeRepair; fn_deleteRepair;
          fn_addSchedule; fn_viewSchedule; fn_listSchedules; fn_pauseSchedule;
          fn_resumeSchedule; fn_deleteSchedule].
Proof.
  split; [by vm_compute|]. split; [|by vm_compute].
  intros name. by apply findCommand_any_order_without_nextSchedule.
Qed.

(** * Further properties

    Properties of the code beyond the claims above. *)

(** A service that answers [resp] to every request, with bodies that do
    not decode. *)
Definition exec_undecodable (resp : Response) (inv : Invocation) : Run :=
  @exec insertion_sorter "localhost:8080" (always resp)
    no_body no_body no_body no_body no_body no_body
    (fun _ => "") (fun _ => "") (fun _ => "") inv.

(** A service that answers [resp] to every request, with bodies that
    decode to the given lists when a list is expected. *)
Definition exec_answered (resp : Response) (runs : list RepairRun.t)
    (schedules : list RepairSchedule.t) (inv : Invocation) : Run :=
  @exec insertion_sorter "localhost:8080" (always resp)
    no_body no_body no_body (decoded runs) no_body
    (decoded schedules)
    (fun _ => "") (fun _ => "") (fun _ => "") inv.

(** The program run against the service above, with a list of cluster
    names that decodes to the empty list, and with flag sets that report
    help. *)
Definition main_answered (resp : Response)
    (p : ParseOutcome (list string * list string)) (REAPER_HOST : string)
  : list MainEvent * MainOutcome :=
  @main insertion_sorter (always resp)
    (decoded []) no_body no_body no_body no_body no_body
    (fun _ => "") (fun _ => "") (fun _ => "")
    (fun hosts s => inr (hosts ++ [s]))
    flag_help commands [] p REAPER_HOST.

(** ** More on the filters *)

(** X1: the overlap test looks at the two lists as sets: it gives the same
    answer with the arguments exchanged, and on lists with the same
    elements, whatever their order and repetitions. *)
Theorem contains_sets (a b a' b' : list string) :
  (forall x, In x a <-> In x a') ->
  (forall x, In x b <-> In x b') ->
  contains a b = contains a' b' /\ contains a b = contains b a.
Proof.
  intros Ha Hb. split; apply eq_true_iff_eq; rewrite !contains_overlap.
  - split; intros (x & H1 & H2); exists x; split;
      first [by apply Ha | by apply Hb].
  - split; intros (x & H1 & H2); exists x; done.
Qed.

Lemma contains_sets_witness :
  contains ["t1"; "t2"; "t1"] ["t3"; "t2"] = contains ["t2"; "t1"] ["t2"; "t3"; "t3"]
  /\ contains ["t1"; "t2"; "t1"] ["t3"; "t2"] = contains ["t3"; "t2"] ["t1"; "t2"; "t1"].
Proof.
  apply (contains_sets ["t1"; "t2"; "t1"] ["t3"; "t2"] ["t2"; "t1"]
           ["t2"; "t3"; "t3"]).
  - intros x. simpl. tauto.
  - intros x. simpl. tauto.
Defined.

Lemma nonempty_false (s : string) : nonempty s = false <-> s = "".
Proof.
  unfold nonempty. rewrite negb_false_iff. apply String.eqb_eq.
Qed.

Lemma differs_false (a b : string) : differs a b = false <-> a = b.
Proof.
  unfold differs. rewrite negb_false_iff. apply String.eqb_eq.
Qed.

Lemma string_filter_passes (wanted actual : string) :
  nonempty wanted && differs wanted actual = false
  <-> wanted = "" \/ wanted = actual.
Proof.
  rewrite andb_false_iff, nonempty_false, differs_false. done.
Qed.

Lemma field_case_fires_false (fl : listRepairs_fs.t) (run : RepairRun.t) :
  field_case_fires fl run = false
  <-> (listRepairs_fs.flCluster fl = ""
       \/ listRepairs_fs.flCluster fl = RepairRun.ClusterName run)
      /\ (listRepairs_fs.flKeyspace fl = ""
          \/ listRepairs_fs.flKeyspace fl = RepairRun.KeyspaceName run)
      /\ (listRepairs_fs.flTables fl = []
          \/ forall x, In x (RepairRun.ColumnFamilies run) ->
                       ~ In x (listRepairs_fs.flTables fl))
      /\ (listRepairs_fs.flOwner fl = ""
          \/ listRepairs_fs.flOwner fl = RepairRun.Owner run)
      /\ (listRepairs_fs.flCause fl = ""
          \/ listRepairs_fs.flCause fl = RepairRun.Cause run).
Proof.
  unfold field_case_fires.
  rewrite !orb_false_iff, !string_filter_passes, andb_false_iff,
    contains_disjoint.
  assert (Hlen : (0 <? length (listRepairs_fs.flTables fl))%nat = false
                 <-> listRepairs_fs.flTables fl = []).
  { destruct (listRepairs_fs.flTables fl); simpl; split; done. }
  rewrite Hlen. tauto.
Qed.

(** X2: what [listRepairs] prints, as the code has it.  A run is printed
    exactly when every filter given lets it through: cluster, keyspace, owner
    and cause, when given, are those of the run; the tables given, if any,
    have NO element in common with the column families of the run; and when
    a date bound is given the run has a start time, not before the lower
    bound and not after the upper one. *)
Theorem listRepairs_prints_iff (fl : listRepairs_fs.t) (run : RepairRun.t) :
  listRepairs_prints fl run = true
  <-> (listRepairs_fs.flCluster fl = ""
       \/ listRepairs_fs.flCluster fl = RepairRun.ClusterName run)
      /\ (listRepairs_fs.flKeyspace fl = ""
          \/ listRepairs_fs.flKeyspace fl = RepairRun.KeyspaceName run)
      /\ (listRepairs_fs.flTables fl = []
          \/ forall x, In x (RepairRun.ColumnFamilies run) ->
                       ~ In x (listRepairs_fs.flTables fl))
      /\ (listRepairs_fs.flOwner fl = ""
          \/ listRepairs_fs.flOwner fl = RepairRun.Owner run)
      /\ (listRepairs_fs.flCause fl = ""
          \/ listRepairs_fs.flCause fl = RepairRun.Cause run)
      /\ match RepairRun.StartTime run with
         | None => ~ supplied (listRepairs_fs.flStartAfter fl)
                   /\ ~ supplied (listRepairs_fs.flStartBefore fl)
         | Some t =>
             (supplied (listRepairs_fs.flStartAfter fl) ->
              Time_le (myTime_Time (listRepairs_fs.flStartAfter fl)) t)
             /\ (supplied (listRepairs_fs.flStartBefore fl) ->
                 Time_le t (myTime_Time (listRepairs_fs.flStartBefore fl)))
         end.
Proof.
  unfold listRepairs_prints, supplied.
  destruct (field_case_fires fl run) eqn:Hf.
  - rewrite (listRepairs_skip_field_case fl run Hf).
    split; [done|]. intros (H1 & H2 & H3 & H4 & H5 & _).
    assert (Hf' : field_case_fires fl run = false)
      by (apply field_case_fires_false; tauto).
    congruence.
  - rewrite (listRepairs_skip_dates fl run Hf). cbv zeta.
    apply field_case_fires_false in Hf.
    destruct (RepairRun.StartTime run) as [t|].
    + rewrite <- Time_Before_false, <- Time_After_false.
      destruct (myTime_IsZero (listRepairs_fs.flStartAfter fl)),
        (myTime_IsZero (listRepairs_fs.flStartBefore fl)),
        (Time_Before t _), (Time_After t _); simpl; intuition congruence.
    + destruct (myTime_IsZero (listRepairs_fs.flStartAfter fl)),
        (myTime_IsZero (listRepairs_fs.flStartBefore fl)); simpl; intuition congruence.
Qed.

Lemma listRepairs_loop_filter (fl : listRepairs_fs.t) (res : list RepairRun.t) :
  listRepairs_loop fl res
  = (map print_run (List.filter (listRepairs_prints fl) res), false).
Proof.
  induction res as [|run rest IH]; simpl; [done|].
  unfold listRepairs_prints at 1.
  destruct (listRepairs_skip_returns fl run) as [[|] ->]; [done|].
  rewrite IH. reflexivity.
Qed.

(** ** What printCluster prints *)

Lemma printCluster_runs_printed (params : printClusterParams)
    (runs : list RepairRun.t) :
  printCluster_runs params true runs
  = map print_run (List.filter (printCluster_shows_run params) runs).
Proof.
  induction runs as [|run rest IH]; simpl; [done|].
  destruct (printCluster_shows_run params run); simpl; by rewrite IH.
Qed.

Lemma printCluster_runs_header (params : printClusterParams)
    (runs : list RepairRun.t) :
  printCluster_runs params false runs
  = match List.filter (printCluster_shows_run params) runs with
    | [] => []
    | shown => EvYellow ("Runs:" +:+ nl) [] :: map print_run shown
    end.
Proof.
  induction runs as [|run rest IH]; simpl; [done|].
  destruct (printCluster_shows_run params run); simpl; [|done].
  by rewrite printCluster_runs_printed.
Qed.

Lemma printCluster_schedules_printed (params : printClusterParams)
    (scs : list RepairSchedule.t) :
  printCluster_schedules params scs
  = flat_map (fun sc => [EvYellow ("Schedules:" +:+ nl) []; print_schedule sc])
      (List.filter (printCluster_shows_schedule params) scs).
Proof.
  induction scs as [|sc rest IH]; simpl; [done|].
  destruct (printCluster_shows_schedule params sc); simpl; by rewrite IH.
Qed.

(** X3: the output of [printCluster].  After the seeds and an empty line
    come, when runs are asked for, the runs that pass the column-family and
    state tests, in the order of the record and under a single header that
    is left out when no run passes; then, when schedules are asked for, the
    schedules that pass, each one under a header of its own. *)
Theorem printCluster_output (c : Cluster.t) (params : printClusterParams) :
  printCluster c params
  = EvYellow ("Seeds:" +:+ nl) []
    :: map EvPrintln (Cluster.SeedHosts c)
    ++ EvPrintln ""
    :: (if ShowRuns params then
          match List.filter (printCluster_shows_run params) (Cluster.RepairRuns c) with
          | [] => []
          | shown => EvYellow ("Runs:" +:+ nl) [] :: map print_run shown
          end
        else [])
    ++ (if ShowSchedules params then
          flat_map
            (fun sc => [EvYellow ("Schedules:" +:+ nl) []; print_schedule sc])
            (List.filter (printCluster_shows_schedule params)
               (Cluster.RepairSchedules c))
        else []).
Proof.
  unfold printCluster.
  by rewrite printCluster_runs_header, printCluster_schedules_printed.
Qed.

(** ** One request, and what becomes of its answer *)

Lemma makeURL_append (host path rest : string) :
  makeURL host path +:+ rest = makeURL host (path +:+ rest).
Proof.
  unfold makeURL.
  assert (Hassoc : forall a b c : string, (a +:+ b) +:+ c = a +:+ (b +:+ c)).
  { intros a b c. induction a as [|x a IH]; cbv [String.append]; [done|].
    fold String.append. by rewrite IH. }
  by rewrite !Hassoc.
Qed.

Ltac unfold_commands :=
  unfold addCluster, viewCluster, listClusters, addRepair, viewRepair,
    listRepairs, pauseRepair, resumeRepair, deleteRepair, changeRepairState,
    addSchedule, viewSchedule, listSchedules, nextSchedule,
    callListSchedules, pauseSchedule, resumeSchedule, deleteSchedule,
    changeScheduleState.

Lemma filter_HTTP_prints (l : list Event) :
  forallb is_print l = true -> List.filter is_HTTP l = [].
Proof.
  induction l as [|ev l IH]; simpl; [done|].
  destruct ev; simpl; try done; auto.
Qed.

Lemma printCluster_prints (c : Cluster.t) (params : printClusterParams) :
  forallb is_print (printCluster c params) = true.
Proof.
  assert (Hruns : forall hp runs,
             forallb is_print (printCluster_runs params hp runs) = true).
  { intros hp runs. revert hp. induction runs as [|run rest IH]; intros hp;
      simpl; [done|].
    destruct (printCluster_shows_run params run); [|by apply IH].
    destruct hp; simpl; by apply IH. }
  assert (Hscs : forall scs,
             forallb is_print (printCluster_schedules params scs) = true).
  { induction scs as [|sc rest IH]; simpl; [done|].
    by destruct (printCluster_shows_schedule params sc). }
  unfold printCluster. simpl. rewrite !forallb_app. simpl.
  rewrite forallb_app.
  assert (Hseeds : forallb is_print (map EvPrintln (Cluster.SeedHosts c)) = true)
    by (by induction (Cluster.SeedHosts c)).
  rewrite Hseeds. simpl.
  destruct (ShowRuns params), (ShowSchedules params); simpl;
    by rewrite ?Hruns, ?Hscs.
Qed.

Lemma map_prints {A : Type} (f : A -> Event) (l : list A) :
  (forall x, is_print (f x) = true) -> forallb is_print (map f l) = true.
Proof.
  intros Hf. induction l as [|x l IH]; simpl; [done|]. by rewrite Hf.
Qed.

Lemma filter_HTTP_map_prints {A : Type} (f : A -> Event) (l : list A) :
  (forall x, is_print (f x) = true) -> List.filter is_HTTP (map f l) = [].
Proof. intros Hf. by apply filter_HTTP_prints, map_prints. Qed.

(** The case analysis of a run: on the invocation, then on each test of
    the command, the innermost first. *)
Ltac case_inner :=
  match goal with
  | |- context [match ?x with _ => _ end] =>
      lazymatch x with
      | context [match _ with _ => _ end] => fail
      | _ => destruct x eqn:?
      end
  end.

Ltac run_cases inv :=
  destruct inv as [p|p| |p|p|p|p|p|p|p|p|p|p|p|p|p];
  try destruct p as [|?err|fl];
  cbn [exec fn_of method_of op_of decodes_body expected_status flag_report
       report];
  unfold_commands; rewrite ?makeURL_append;
  repeat case_inner;
  repeat match goal with
    | H : listRepairs_loop _ _ = _ |- _ =>
        rewrite listRepairs_loop_filter in H; simplify_eq
    end;
  cbn [fst snd app] in *.

Ltac no_requests :=
  repeat first
    [ progress cbn [List.filter is_HTTP app]
    | rewrite List.filter_app
    | rewrite (filter_HTTP_prints _ (printCluster_prints _ _))
    | rewrite filter_HTTP_map_prints by done
    | rewrite app_nil_r ].

Ltac request_known H :=
  unfold request_of in H; revert H; no_requests; intros H; simplify_eq.

Lemma prints_no_decode (l : list Event) (body : string) :
  forallb is_print l = true -> ~ In (EvDecode body) l.
Proof.
  intros Hl Hin. rewrite forallb_forall in Hl. by apply Hl in Hin.
Qed.

Ltac split_in H :=
  repeat first [ rewrite in_app_iff in H | progress cbn [In] in H ];
  repeat match goal with
    | H' : _ \/ _ |- _ => destruct H' as [H'|H']
    | H' : In (EvDecode _) _ |- _ =>
        apply prints_no_decode in H';
        [done | first [ apply printCluster_prints | by apply map_prints ]]
    end.

Ltac status_known :=
  repeat match goal with
    | H : negb (_ =? _) = false |- _ => apply negb_false_iff, Z.eqb_eq in H
    | H : negb (_ =? _) = true |- _ => apply negb_true_iff, Z.eqb_neq in H
    end.

Ltac same_answer :=
  match goal with
  | H : ?f = _ |- ?f = _ -> _ =>
      rewrite H; let H' := fresh in intros H'; simplify_eq
  end.

Section CommandInvariants.

Context `{SliceSorter}.
Variable host : string.
Variable decode_strings : string -> error + list string.
Variable decode_Cluster : string -> error + Cluster.t.
Variable decode_RepairRun : string -> error + RepairRun.t.
Variable decode_RepairRuns : string -> error + list RepairRun.t.
Variable decode_RepairSchedule : string -> error + RepairSchedule.t.
Variable decode_RepairSchedules : string -> error + list RepairSchedule.t.
Variable Encode : list (string * string) -> string.
Variable Itoa : Z -> string.
Variable Sprintf_f3 : float64 -> string.

Local Abbreviation run_with http_do :=
  (exec host http_do decode_strings decode_Cluster decode_RepairRun
     decode_RepairRuns decode_RepairSchedule decode_RepairSchedules
     Encode Itoa Sprintf_f3).

(** The requests of a run; [main] below relies on it as well. *)
Lemma requests_of_run
    (http_do : string -> string -> error + Response) (inv : Invocation) :
  let requests := List.filter is_HTTP (fst (run_with http_do inv)) in
  requests = []
  \/ exists path,
       requests = [EvHTTP (method_of (fn_of inv)) (makeURL host path)].
Proof.
  cbv zeta. run_cases inv; no_requests;
    first [ by left | right; eexists; reflexivity ].
Qed.

(** X4: whatever the service answers, a command makes at most one request;
    the request has the method of the command and goes to the configured
    host. *)
Theorem at_most_one_request
    (http_do : string -> string -> error + Response) (inv : Invocation) :
  let requests := List.filter is_HTTP (fst (run_with http_do inv)) in
  requests = []
  \/ exists path,
       requests = [EvHTTP (method_of (fn_of inv)) (makeURL host path)].
Proof. apply requests_of_run. Qed.

(** X5: when the request of a command fails in transport, the command
    returns the transport error as an I/O error under the name of the
    function that made the request; the request is the last thing it did. *)
Theorem transport_error_reported
    (http_do : string -> string -> error + Response) (inv : Invocation)
    (method url : string) (err : error) :
  let run := run_with http_do inv in
  request_of (fst run) = Some (method, url) ->
  http_do method url = inl err ->
  snd run = Return (Some (errors.E errors.IO (op_of (fn_of inv)) err))
  /\ exists printed,
       fst run = printed ++ [EvHTTP method url]
       /\ forallb is_print printed = true.
Proof.
  cbv zeta. run_cases inv; intros Hreq; request_known Hreq; same_answer;
    (split; [done|]; first [ by exists [] | by eexists [_] ]).
Qed.

(** X6: every command but [listClusters] tests the status of the answer:
    when it is not the one the command expects, the command returns the
    body of the answer as its error, decodes nothing and prints nothing
    more. *)
Theorem unexpected_status_returns_body
    (http_do : string -> string -> error + Response) (inv : Invocation)
    (method url : string) (resp : Response) :
  let run := run_with http_do inv in
  fn_of inv <> fn_listClusters ->
  request_of (fst run) = Some (method, url) ->
  http_do method url = inr resp ->
  StatusCode resp <> expected_status (fn_of inv) ->
  snd run = Return (Some (errors.Str (Body resp)))
  /\ exists printed,
       fst run = printed ++ [EvHTTP method url]
       /\ forallb is_print printed = true.
Proof.
  cbv zeta. run_cases inv; intros Hfn Hreq; try done; request_known Hreq;
    same_answer; intros Hstatus;
    repeat match goal with
      | H : negb (_ =? _) = false |- _ =>
          apply negb_false_iff, Z.eqb_eq in H
      end; try done;
    (split; [done|]; first [ by exists [] | by eexists [_] ]).
Qed.


(** X8: a body is decoded only after a request that the service answered
    with that body and, [listClusters] apart, with the status the command
    expects; the commands that change a state or delete never decode. *)
Theorem decodes_only_expected_answers
    (http_do : string -> string -> error + Response) (inv : Invocation)
    (body : string) :
  let run := run_with http_do inv in
  In (EvDecode body) (fst run) ->
  decodes_body (fn_of inv) = true
  /\ exists method url resp,
       request_of (fst run) = Some (method, url)
       /\ http_do method url = inr resp
       /\ Body resp = body
       /\ (fn_of inv = fn_listClusters
           \/ StatusCode resp = expected_status (fn_of inv)).
Proof.
  cbv zeta. run_cases inv; intros Hin; split_in Hin; try done;
    simplify_eq; status_known;
    (split; [done|]); do 3 eexists;
    (split; [unfold request_of; no_requests; reflexivity|]);
    (split; [eassumption|]); (split; [reflexivity|]); auto.
Qed.

(** What precedes a nil return; [main] below relies on it as well. *)
Lemma nil_return_of_run
    (http_do : string -> string -> error + Response) (inv : Invocation) :
  let run := run_with http_do inv in
  snd run = Return None ->
  flag_report inv = Some HelpRequested
  \/ exists method url resp,
       request_of (fst run) = Some (method, url)
       /\ http_do method url = inr resp
       /\ (fn_of inv = fn_listClusters
           \/ StatusCode resp = expected_status (fn_of inv)).
Proof.
  cbv zeta. run_cases inv; intros Hnil; try done; try (by left);
    status_known; right; do 3 eexists;
    (split; [unfold request_of; no_requests; reflexivity|]);
    (split; [eassumption|]); auto.
Qed.

(** X9: a command returns nil only when its flag set reported that help
    was asked for, or when the service answered its request with the
    status the command expects ([listClusters]: with any status). *)
Theorem nil_only_after_expected_answer
    (http_do : string -> string -> error + Response) (inv : Invocation) :
  let run := run_with http_do inv in
  snd run = Return None ->
  flag_report inv = Some HelpRequested
  \/ exists method url resp,
       request_of (fst run) = Some (method, url)
       /\ http_do method url = inr resp
       /\ (fn_of inv = fn_listClusters
           \/ StatusCode resp = expected_status (fn_of inv)).
Proof. apply nil_return_of_run. Qed.

End CommandInvariants.

Lemma transport_error_reported_witness :
  snd (exec_offline Inv_listClusters)
  = Return (Some (errors.E errors.IO "listClusters"
                    (errors.foreign "connection refused")))
  /\ exists printed,
       fst (exec_offline Inv_listClusters)
       = printed ++ [EvHTTP "GET" "http://localhost:8080/cluster"]
       /\ forallb is_print printed = true.
Proof.
  apply (@transport_error_reported insertion_sorter "localhost:8080"
           no_body no_body no_body no_body no_body no_body
           (fun _ => "") (fun _ => "") (fun _ => "") unreachable Inv_listClusters
           "GET" "http://localhost:8080/cluster"
           (errors.foreign "connection refused")); reflexivity.
Defined.

Lemma unexpected_status_returns_body_witness :
  snd (exec_undecodable (mkResponse 500 "boom")
         (Inv_viewSchedule (Parsed (scheduleID_fs.mk "7"))))
  = Return (Some (errors.Str "boom"))
  /\ exists printed,
       fst (exec_undecodable (mkResponse 500 "boom")
              (Inv_viewSchedule (Parsed (scheduleID_fs.mk "7"))))
       = printed ++ [EvHTTP "GET" "http://localhost:8080/repair_schedule/7"]
       /\ forallb is_print printed = true.
Proof.
  apply (@unexpected_status_returns_body insertion_sorter "localhost:8080"
           no_body no_body no_body no_body no_body no_body
           (fun _ => "") (fun _ => "") (fun _ => "")
           (always (mkResponse 500 "boom"))
           (Inv_viewSchedule (Parsed (scheduleID_fs.mk "7")))
           "GET" "http://localhost:8080/repair_schedule/7"
           (mkResponse 500 "boom")); done.
Defined.


Lemma decodes_only_expected_answers_witness :
  decodes_body fn_listClusters = true
  /\ exists method url resp,
       request_of (fst (exec_undecodable (mkResponse 200 "{") Inv_listClusters))
       = Some (method, url)
       /\ always (mkResponse 200 "{") method url = inr resp
       /\ Body resp = "{"
       /\ (fn_listClusters = fn_listClusters
           \/ StatusCode resp = expected_status fn_listClusters).
Proof.
  apply (@decodes_only_expected_answers insertion_sorter "localhost:8080"
           no_body no_body no_body no_body no_body no_body
           (fun _ => "") (fun _ => "") (fun _ => "")
           (always (mkResponse 200 "{")) Inv_listClusters "{").
  right. left. reflexivity.
Defined.

Lemma nil_only_after_expected_answer_witness :
  flag_report (Inv_nextSchedule (Parsed tt)) = Some HelpRequested
  \/ exists method url resp,
       request_of (fst (exec_answered (mkResponse 200 "[]") [] []
                          (Inv_nextSchedule (Parsed tt))))
       = Some (method, url)
       /\ always (mkResponse 200 "[]") method url = inr resp
       /\ (fn_nextSchedule = fn_listClusters
           \/ StatusCode resp = expected_status fn_nextSchedule).
Proof.
  apply (@nil_only_after_expected_answer insertion_sorter "localhost:8080"
           no_body no_body no_body (decoded []) no_body
           (decoded [])
           (fun _ => "") (fun _ => "") (fun _ => "")
           (always (mkResponse 200 "[]"))
           (Inv_nextSchedule (Parsed tt))).
  reflexivity.
Defined.

(** ** The schedule and repair listings *)

(** [sortSchedules] returns when it has nothing to compare or when every
    schedule carries the timestamp. *)
Lemma sortSchedules_returns `{SliceSorter} (res : list RepairSchedule.t)
    (sortBy : string) (reverse : bool) :
  sortBy <> ScheduleSortByNextActivation \/ Forall has_next res ->
  exists sorted,
    sortSchedules res sortBy reverse = Some sorted
    /\ Permutation res sorted
    /\ (sortBy <> ScheduleSortByNextActivation -> sorted = res)
    /\ in_order sortBy reverse sorted.
Proof.
  unfold sortSchedules, in_order.
  destruct (String.eqb_spec sortBy ScheduleSortByNextActivation) as [->|Hne].
  2: { intros _. cbn [andb]. by exists res. }
  intros [Hne|Hall]; [done|]. cbn [andb].
  destruct reverse; cbn [negb].
  - destruct (sort_Slice_contract _ (less_NextActivation Time_After)
                (fun a b => Time_After (next a) (next b)) res)
      as (sorted & -> & Hperm & Hsorted).
    { by apply less_NextActivation_total. }
    { apply after_swo. }
    exists sorted. repeat split; [done|done|].
    assert (Hall' : Forall has_next sorted) by (by rewrite <- Hperm).
    apply (sorted_by_next (fun t u => Time_le u t)); try done.
    + intros t u v H1 H2. by apply (Time_le_trans v u t).
    + intros a b Ha Hb Hle. by apply activated_no_later_of_next.
    + eapply Sorted_weaken; [|exact Hsorted].
      intros a b Hab. cbv beta in Hab. rewrite Time_After_Before in Hab.
      by apply Time_Before_false in Hab.
  - destruct (sort_Slice_contract _ (less_NextActivation Time_Before)
                (fun a b => Time_Before (next a) (next b)) res)
      as (sorted & -> & Hperm & Hsorted).
    { by apply less_NextActivation_total. }
    { apply before_swo. }
    exists sorted. repeat split; [done|done|].
    assert (Hall' : Forall has_next sorted) by (by rewrite <- Hperm).
    apply (sorted_by_next Time_le); try done.
    + apply Time_le_trans.
    + apply activated_no_later_of_next.
    + eapply Sorted_weaken; [|exact Hsorted].
      intros a b Hab. by apply Time_Before_false in Hab.
Qed.

Lemma listSchedules_shows_iff (fl : listSchedules_fs.t)
    (sc : RepairSchedule.t) :
  listSchedules_shows fl sc = true
  <-> (listSchedules_fs.flKeyspace fl = ""
       \/ RepairSchedule.KeyspaceName sc = listSchedules_fs.flKeyspace fl)
      /\ (listSchedules_fs.flState fl = ""
          \/ RepairSchedule.State sc = listSchedules_fs.flState fl).
Proof.
  unfold listSchedules_shows. cbv zeta.
  destruct (String.eqb_spec (listSchedules_fs.flKeyspace fl) "");
    destruct (String.eqb_spec (RepairSchedule.KeyspaceName sc)
                (listSchedules_fs.flKeyspace fl));
    destruct (String.eqb_spec (listSchedules_fs.flState fl) "");
    destruct (String.eqb_spec (RepairSchedule.State sc)
                (listSchedules_fs.flState fl));
    simpl; intuition congruence.
Qed.

Section ScheduleCommands.

Context `{SliceSorter}.
Variable host : string.
Variable decode_strings : string -> error + list string.
Variable decode_Cluster : string -> error + Cluster.t.
Variable decode_RepairRun : string -> error + RepairRun.t.
Variable decode_RepairRuns : string -> error + list RepairRun.t.
Variable decode_RepairSchedule : string -> error + RepairSchedule.t.
Variable decode_RepairSchedules : string -> error + list RepairSchedule.t.
Variable Encode : list (string * string) -> string.
Variable Itoa : Z -> string.
Variable Sprintf_f3 : float64 -> string.

Local Abbreviation run_with http_do :=
  (exec host http_do decode_strings decode_Cluster decode_RepairRun
     decode_RepairRuns decode_RepairSchedule decode_RepairSchedules
     Encode Itoa Sprintf_f3).

(** X10: a command panics only in sorting schedules by next activation,
    which [listSchedules] does when asked to and [nextSchedule] always:
    the service answered 200 with a list in which a schedule carries no
    next-activation timestamp. *)
Theorem panics_only_without_timestamp
    (http_do : string -> string -> error + Response) (inv : Invocation) :
  let run := run_with http_do inv in
  snd run = Panic ->
  (fn_of inv = fn_nextSchedule
   \/ exists fl, inv = Inv_listSchedules (Parsed fl)
        /\ listSchedules_fs.flSortBy fl = ScheduleSortByNextActivation)
  /\ exists method url resp res,
       request_of (fst run) = Some (method, url)
       /\ http_do method url = inr resp
       /\ StatusCode resp = StatusOK
       /\ decode_RepairSchedules (Body resp) = inr res
       /\ ~ Forall has_next res.
Proof.
  cbv zeta. run_cases inv; intros Hpanic; try done; status_known.
  all: match goal with
       | Hs : sortSchedules ?l ?by_ ?rev = _ |- _ =>
           assert (Hby : by_ = ScheduleSortByNextActivation);
           [ destruct (decide (by_ = ScheduleSortByNextActivation))
               as [|Hne]; [done|];
             destruct (sortSchedules_returns l by_ rev (or_introl Hne))
               as (sorted & Hsorted & Hperm & _);
             rewrite Hsorted in Hs; simplify_eq
           | assert (Hnot : ~ Forall has_next l);
             [ intros Hall;
               destruct (sortSchedules_returns l by_ rev (or_intror Hall))
                 as (sorted & Hsorted & Hperm & _);
               rewrite Hsorted in Hs; simplify_eq;
               try (apply Permutation_nil_r in Hperm; by subst)
             | ] ]
       end.
  all: (split; [by eauto|]); do 4 eexists;
    (split; [unfold request_of; no_requests; reflexivity|]);
    (split; [eassumption|]); (split; [eassumption|]);
    (split; [eassumption|]); assumption.
Qed.

(** X11: when the service answers 200 with a list of schedules, and either
    no sorting by next activation is asked for or every schedule carries
    the timestamp, [listSchedules] returns nil after printing, in the order
    asked for (the order of the answer when none is), the schedules of the
    keyspace and of the state asked for. *)
Theorem listSchedules_output
    (http_do : string -> string -> error + Response)
    (fl : listSchedules_fs.t) (resp : Response)
    (res : list RepairSchedule.t) :
  let qry :=
    (if nonempty (listSchedules_fs.flCluster fl)
     then [("clusterName", listSchedules_fs.flCluster fl)] else [])
    ++ (if nonempty (listSchedules_fs.flKeyspace fl)
        then [("keyspaceName", listSchedules_fs.flKeyspace fl)] else []) in
  let url := makeURL host "/repair_schedule" +:+ "?" +:+ Encode qry in
  http_do "GET" url = inr resp ->
  StatusCode resp = StatusOK ->
  decode_RepairSchedules (Body resp) = inr res ->
  listSchedules_fs.flSortBy fl <> ScheduleSortByNextActivation
  \/ Forall has_next res ->
  exists sorted,
    Permutation res sorted
    /\ (listSchedules_fs.flSortBy fl <> ScheduleSortByNextActivation ->
        sorted = res)
    /\ in_order (listSchedules_fs.flSortBy fl)
         (listSchedules_fs.flReverseSort fl) sorted
    /\ run_with http_do (Inv_listSchedules (Parsed fl))
       = ([EvHTTP "GET" url; EvDecode (Body resp)]
          ++ map print_schedule_line
               (filter
                  (fun sc =>
                     (listSchedules_fs.flKeyspace fl = ""
                      \/ RepairSchedule.KeyspaceName sc
                         = listSchedules_fs.flKeyspace fl)
                     /\ (listSchedules_fs.flState fl = ""
                         \/ RepairSchedule.State sc
                            = listSchedules_fs.flState fl))
                  sorted),
          Return None).
Proof.
  intros qry url Hdo Hstatus Hdecode Hsort.
  destruct (sortSchedules_returns res (listSchedules_fs.flSortBy fl)
              (listSchedules_fs.flReverseSort fl) Hsort)
    as (sorted & Hsorted & Hperm & Hsame & Horder).
  exists sorted. repeat split; try done.
  cbn [exec]. unfold listSchedules, callListSchedules.
  fold qry. fold url. rewrite Hdo, Hstatus. cbn [Z.eqb Pos.eqb StatusOK negb].
  rewrite Hdecode, Hsorted. do 3 f_equal.
  apply list_filter_iff. intros sc. apply listSchedules_shows_iff.
Qed.

(** X12: when the service answers 200 with a list of schedules that all
    carry the timestamp, [nextSchedule] prints one schedule of the list,
    one that is activated no later than every schedule of the list, and
    returns nil; on the empty list it prints nothing and returns nil. *)
Theorem nextSchedule_prints_earliest
    (http_do : string -> string -> error + Response) (resp : Response)
    (res : list RepairSchedule.t) :
  let url := makeURL host "/repair_schedule" +:+ "?" +:+ Encode [] in
  let run := run_with http_do (Inv_nextSchedule (Parsed tt)) in
  http_do "GET" url = inr resp ->
  StatusCode resp = StatusOK ->
  decode_RepairSchedules (Body resp) = inr res ->
  Forall has_next res ->
  (res = [] /\ run = ([EvHTTP "GET" url; EvDecode (Body resp)], Return None))
  \/ exists first,
       In first res
       /\ (forall sc, In sc res -> activated_no_later first sc)
       /\ run = ([EvHTTP "GET" url; EvDecode (Body resp);
                  print_schedule_line first], Return None).
Proof.
  intros url run Hdo Hstatus Hdecode Hall. subst run.
  cbn [exec]. unfold nextSchedule, callListSchedules.
  fold url. rewrite Hdo, Hstatus. cbn [Z.eqb Pos.eqb StatusOK negb].
  rewrite Hdecode.
  destruct res as [|sc0 rest]; [by left|]. right.
  cbn [length Nat.leb].
  destruct (sortSchedules_returns (sc0 :: rest) ScheduleSortByNextActivation
              false (or_intror Hall))
    as (sorted & -> & Hperm & _ & Horder).
  unfold in_order in Horder.
  change (String.eqb ScheduleSortByNextActivation ScheduleSortByNextActivation)
    with true in Horder. cbv iota in Horder.
  destruct sorted as [|first sorted].
  { by apply Permutation_nil_r in Hperm. }
  exists first. split; [|split; [|done]].
  - apply (Permutation_in first (Permutation_sym Hperm)). by left.
  - intros sc Hsc. apply (Permutation_in sc Hperm) in Hsc.
    apply StronglySorted_inv in Horder as [_ Hfirst].
    destruct Hsc as [<-|Hsc].
    + assert (Hfirst' : has_next first).
      { rewrite Forall_forall in Hall. apply Hall.
        apply list_elem_of_In.
        apply (Permutation_in first (Permutation_sym Hperm)). by left. }
      destruct Hfirst' as [t Ht]. exists t, t.
      repeat split; try done. apply Time_le_refl.
    + rewrite Forall_forall in Hfirst. apply Hfirst.
      by apply list_elem_of_In.
Qed.

(** X13: when the service answers 200 with a list of repair runs,
    [listRepairs] returns nil after printing, in the order of the answer,
    the runs that pass its filters; it does not panic on a run without
    start time. *)
Theorem listRepairs_output
    (http_do : string -> string -> error + Response)
    (fl : listRepairs_fs.t) (resp : Response) (res : list RepairRun.t) :
  let qry :=
    if nonempty (listRepairs_fs.flRunState fl)
    then [("state", RunState_String (listRepairs_fs.flRunState fl))]
    else [] in
  let url := makeURL host "/repair_run?" +:+ Encode qry in
  http_do "GET" url = inr resp ->
  StatusCode resp = StatusOK ->
  decode_RepairRuns (Body resp) = inr res ->
  run_with http_do (Inv_listRepairs (Parsed fl))
  = ([EvHTTP "GET" url; EvDecode (Body resp)]
     ++ map print_run (List.filter (listRepairs_prints fl) res),
     Return None).
Proof.
  intros qry url Hdo Hstatus Hdecode.
  cbn [exec]. unfold listRepairs.
  fold qry. fold url. rewrite Hdo, Hstatus. cbn [Z.eqb Pos.eqb StatusOK negb].
  by rewrite Hdecode, listRepairs_loop_filter.
Qed.

End ScheduleCommands.

(** ** Sorting short lists: insertion sort *)

Lemma insertion_insert_returns (cmp : Time -> Time -> bool)
    (x : RepairSchedule.t) (rprefix : list RepairSchedule.t) :
  has_next x -> Forall has_next rprefix ->
  exists r, insertion_insert (less_NextActivation cmp) x rprefix = Some r
            /\ Forall has_next r
            /\ length r = S (length rprefix).
Proof.
  intros [tx Hx]. induction rprefix as [|p rp IH]; intros Hall.
  - exists [x]. split; [done|]. split; [|done].
    constructor; [by exists tx|done].
  - apply Forall_cons in Hall as [[tp Hp] Hall].
    simpl. unfold less_NextActivation at 1. rewrite Hx, Hp.
    destruct (cmp tx tp).
    + destruct (IH Hall) as (r & -> & Hr & Hlen). exists (p :: r).
      split; [done|]. split; [|by simpl; rewrite Hlen].
      constructor; [by exists tp|done].
    + eexists. split; [done|]. split; [|done].
      constructor; [by exists tx|]. constructor; [by exists tp|done].
Qed.

Lemma insertion_loop_panics (cmp : Time -> Time -> bool)
    (rest rprefix : list RepairSchedule.t) :
  rprefix <> [] ->
  Forall has_next rprefix \/ length rprefix = 1%nat ->
  ~ Forall has_next (rprefix ++ rest) ->
  (2 <= length (rprefix ++ rest))%nat ->
  insertion_loop (less_NextActivation cmp) rprefix rest = None.
Proof.
  revert rprefix.
  induction rest as [|x rest IH]; intros rprefix Hne Hpre Hnot Hlen.
  - rewrite app_nil_r in Hnot, Hlen. destruct Hpre as [Hall|Hone]; [done|lia].
  - destruct rprefix as [|p rp]; [done|].
    cbn [insertion_loop insertion_insert].
    unfold less_NextActivation at 1.
    destruct (RepairSchedule.NextActivation x) as [tx|] eqn:Hx; [|done].
    destruct (RepairSchedule.NextActivation p) as [tp|] eqn:Hp; [|done].
    assert (Hall : Forall has_next (p :: rp)).
    { destruct Hpre as [Hall|Hone]; [done|].
      destruct rp; [|done]. constructor; [by exists tp|done]. }
    assert (Hhx : has_next x) by (by exists tx).
    destruct (insertion_insert_returns cmp x (p :: rp) Hhx Hall)
      as (r & Hr & Hallr & Hlenr).
    cbn [insertion_insert] in Hr. unfold less_NextActivation at 1 in Hr.
    rewrite Hx, Hp in Hr. rewrite Hr.
    apply IH.
    + intros ->. done.
    + by left.
    + intros Hall'. apply Hnot. apply Forall_app in Hall' as [_ Hrest].
      apply Forall_app. split; [done|]. by constructor.
    + rewrite length_app, Hlenr. simpl. lia.
Qed.

(** X14: on a list of at most twelve schedules, which [sort.Slice] sorts by
    insertion, sorting by next activation panics exactly when the list has
    two schedules or more and one of them carries no timestamp: a single
    schedule without timestamp is not looked at. *)
Theorem sortSchedules_short_panics_iff (res : list RepairSchedule.t)
    (reverse : bool) :
  (length res <= 12)%nat ->
  @sortSchedules insertion_sorter res ScheduleSortByNextActivation reverse
  = None
  <-> (2 <= length res)%nat /\ ~ Forall has_next res.
Proof.
  intros _. split.
  - intros Hnone. split.
    + destruct res as [|a [|b rest]]; [by destruct reverse..|simpl; lia].
    + intros Hall.
      destruct (@sortSchedules_returns insertion_sorter res
                  ScheduleSortByNextActivation reverse (or_intror Hall))
        as (sorted & Hsorted & _).
      by rewrite Hsorted in Hnone.
  - intros [Hlen Hnot]. unfold sortSchedules.
    change (String.eqb ScheduleSortByNextActivation
              ScheduleSortByNextActivation) with true.
    destruct res as [|a rest]; [simpl in Hlen; lia|].
    destruct reverse; cbn [negb andb sort_Slice insertion_sorter insertionSort];
      apply insertion_loop_panics; try done; by right.
Qed.

Lemma sortSchedules_short_panics_iff_witness :
  @sortSchedules insertion_sorter
    [schedule_at "a" (mkTime 300 0); schedule_unplanned "b"]
    ScheduleSortByNextActivation false
  = None.
Proof.
  apply (proj2 (sortSchedules_short_panics_iff
                  [schedule_at "a" (mkTime 300 0); schedule_unplanned "b"]
                  false ltac:(simpl; lia))).
  split; [simpl; lia|].
  intros Hall. apply Forall_cons in Hall as [_ Hall].
  apply Forall_cons in Hall as [[t Ht] _]. discriminate Ht.
Defined.

Lemma panics_only_without_timestamp_witness :
  (fn_nextSchedule = fn_nextSchedule
   \/ exists fl, Inv_nextSchedule (Parsed tt) = Inv_listSchedules (Parsed fl)
        /\ listSchedules_fs.flSortBy fl = ScheduleSortByNextActivation)
  /\ exists method url resp res,
       request_of
         (fst (exec_answered (mkResponse 200 "[]") []
                 [schedule_at "a" (mkTime 300 0); schedule_unplanned "b"]
                 (Inv_nextSchedule (Parsed tt))))
       = Some (method, url)
       /\ always (mkResponse 200 "[]") method url = inr resp
       /\ StatusCode resp = StatusOK
       /\ decoded [schedule_at "a" (mkTime 300 0); schedule_unplanned "b"]
            (Body resp) = inr res
       /\ ~ Forall has_next res.
Proof.
  apply (@panics_only_without_timestamp insertion_sorter "localhost:8080"
           no_body no_body no_body (decoded []) no_body
           (decoded [schedule_at "a" (mkTime 300 0);
                     schedule_unplanned "b"])
           (fun _ => "") (fun _ => "") (fun _ => "")
           (always (mkResponse 200 "[]"))
           (Inv_nextSchedule (Parsed tt))).
  reflexivity.
Defined.

Lemma listSchedules_output_witness :
  exists sorted,
    Permutation [schedule_at "a" (mkTime 300 0); schedule_at "b" (mkTime 100 0)]
      sorted
    /\ (ScheduleSortByNextActivation <> ScheduleSortByNextActivation ->
        sorted = [schedule_at "a" (mkTime 300 0);
                  schedule_at "b" (mkTime 100 0)])
    /\ in_order ScheduleSortByNextActivation false sorted
    /\ exec_answered (mkResponse 200 "[]") []
         [schedule_at "a" (mkTime 300 0); schedule_at "b" (mkTime 100 0)]
         (Inv_listSchedules
            (Parsed (listSchedules_fs.mk "" "ks" ""
                       ScheduleSortByNextActivation false)))
       = ([EvHTTP "GET" "http://localhost:8080/repair_schedule?";
           EvDecode "[]"]
          ++ map print_schedule_line
               (filter
                  (fun sc =>
                     ("ks" = "" \/ RepairSchedule.KeyspaceName sc = "ks")
                     /\ ("" = "" \/ RepairSchedule.State sc = ""))
                  sorted),
          Return None).
Proof.
  apply (@listSchedules_output insertion_sorter "localhost:8080"
           no_body no_body no_body (decoded []) no_body
           (decoded [schedule_at "a" (mkTime 300 0);
                     schedule_at "b" (mkTime 100 0)])
           (fun _ => "") (fun _ => "") (fun _ => "")
           (always (mkResponse 200 "[]"))
           (listSchedules_fs.mk "" "ks" "" ScheduleSortByNextActivation false)
           (mkResponse 200 "[]")
           [schedule_at "a" (mkTime 300 0); schedule_at "b" (mkTime 100 0)]);
    try reflexivity.
  right. repeat (constructor; [eexists; reflexivity|]). constructor.
Defined.

Lemma nextSchedule_prints_earliest_witness :
  ([schedule_at "a" (mkTime 300 0); schedule_at "b" (mkTime 100 0)] = []
   /\ exec_answered (mkResponse 200 "[]") []
        [schedule_at "a" (mkTime 300 0); schedule_at "b" (mkTime 100 0)]
        (Inv_nextSchedule (Parsed tt))
      = ([EvHTTP "GET" "http://localhost:8080/repair_schedule?";
          EvDecode "[]"], Return None))
  \/ exists first,
       In first [schedule_at "a" (mkTime 300 0); schedule_at "b" (mkTime 100 0)]
       /\ (forall sc,
             In sc [schedule_at "a" (mkTime 300 0);
                    schedule_at "b" (mkTime 100 0)] ->
             activated_no_later first sc)
       /\ exec_answered (mkResponse 200 "[]") []
            [schedule_at "a" (mkTime 300 0); schedule_at "b" (mkTime 100 0)]
            (Inv_nextSchedule (Parsed tt))
          = ([EvHTTP "GET" "http://localhost:8080/repair_schedule?";
              EvDecode "[]"; print_schedule_line first], Return None).
Proof.
  apply (@nextSchedule_prints_earliest insertion_sorter "localhost:8080"
           no_body no_body no_body (decoded []) no_body
           (decoded [schedule_at "a" (mkTime 300 0);
                     schedule_at "b" (mkTime 100 0)])
           (fun _ => "") (fun _ => "") (fun _ => "")
           (always (mkResponse 200 "[]")) (mkResponse 200 "[]")
           [schedule_at "a" (mkTime 300 0); schedule_at "b" (mkTime 100 0)]);
    try reflexivity.
  repeat (constructor; [eexists; reflexivity|]). constructor.
Defined.

Lemma listRepairs_output_witness :
  exec_answered (mkResponse 200 "[]") [run_t1] []
    (Inv_listRepairs (Parsed flags_tables_t1))
  = ([EvHTTP "GET" "http://localhost:8080/repair_run?"; EvDecode "[]"]
     ++ map print_run (List.filter (listRepairs_prints flags_tables_t1) [run_t1]),
     Return None).
Proof.
  apply (@listRepairs_output insertion_sorter "localhost:8080"
           no_body no_body no_body (decoded [run_t1]) no_body (decoded [])
           (fun _ => "") (fun _ => "") (fun _ => "")
           (always (mkResponse 200 "[]")) flags_tables_t1
           (mkResponse 200 "[]") [run_t1]); reflexivity.
Defined.

(** ** The command table, whatever the order of the range *)

Lemma commands_lookup (g : string * gmap string commandFn) (name : string)
    (fn : commandFn) :
  In g commands -> snd g !! name = Some fn -> name = command_name fn.
Proof.
  unfold commands. intros [<-|[<-|[<-|[]]]]; simpl;
    rewrite !lookup_insert, lookup_empty; repeat case_decide;
    by intros [= <-].
Qed.

Lemma command_name_inj (fn fn' : commandFn) :
  command_name fn = command_name fn' -> fn = fn'.
Proof. by destruct fn, fn'. Qed.

Lemma findCommand_in_None (groups : list (string * gmap string commandFn))
    (name : string) :
  findCommand_in groups name = None ->
  forall g, In g groups -> snd g !! name = None.
Proof.
  induction groups as [|[gname group] rest IH]; simpl; [done|].
  destruct (group !! name) as [fn|] eqn:Hl; [done|].
  intros Hrest g [<-|Hg]; [done | by apply IH].
Qed.

(** X15: Go ranges over the table in an order it does not specify:
    whatever the order, [findCommand] finds the same function, since no
    name is in two groups. *)
Theorem findCommand_order_independent
    (groups : list (string * gmap string commandFn)) (name : string) :
  Permutation commands groups ->
  findCommand_in groups name = findCommand name.
Proof.
  intros Hperm. unfold findCommand.
  destruct (findCommand_in groups name) as [fn|] eqn:Hg;
    destruct (findCommand_in commands name) as [fn'|] eqn:Hc; try done.
  - apply findCommand_in_found in Hg as (g & Hg & Hfn).
    apply findCommand_in_found in Hc as (g' & Hg' & Hfn').
    apply (Permutation_in g (Permutation_sym Hperm)) in Hg.
    f_equal. apply command_name_inj.
    by rewrite <- (commands_lookup g name fn), <- (commands_lookup g' name fn').
  - apply findCommand_in_found in Hg as (g & Hg & Hfn).
    apply (Permutation_in g (Permutation_sym Hperm)) in Hg.
    by rewrite (findCommand_in_None _ _ Hc g Hg) in Hfn.
  - apply findCommand_in_found in Hc as (g & Hg' & Hfn).
    apply (Permutation_in g Hperm) in Hg'.
    by rewrite (findCommand_in_None _ _ Hg g Hg') in Hfn.
Qed.

Lemma findCommand_order_independent_witness :
  findCommand_in
    [("schedule", snd (nth 2 commands ("", ∅)));
     ("cluster", snd (nth 0 commands ("", ∅)));
     ("repair", snd (nth 1 commands ("", ∅)))] "pause-repair"
  = findCommand "pause-repair".
Proof.
  apply findCommand_order_independent.
  unfold commands. cbn [nth snd].
  etransitivity; [apply Permutation_cons_append|]. cbn [app].
  etransitivity; [apply Permutation_cons_append|]. cbn [app].
  apply Permutation_refl.
Defined.

(** ** main *)

Lemma fn_of_call (flag : FlagSets) (fn : commandFn) (args : list string) :
  fn_of (call flag fn args) = fn.
Proof. by destruct fn. Qed.

Lemma printUsage_prints (visited : list (string * list string)) :
  forallb is_print (printUsage visited) = true.
Proof.
  unfold printUsage. cbn [forallb is_print andb].
  induction visited as [|[groupName group] rest IH]; [done|].
  cbn [flat_map]. rewrite forallb_app, IH, andb_true_r.
  cbn [forallb is_print andb]. by apply map_prints.
Qed.

Lemma prints_no_request (l : list Event) (method url : string) :
  forallb is_print l = true -> ~ In (EvHTTP method url) l.
Proof.
  intros Hl Hin. rewrite forallb_forall in Hl. by apply Hl in Hin.
Qed.

Lemma In_MOut (ev : Event) (l : list Event) :
  In (MOut ev) (map MOut l) -> In ev l.
Proof.
  rewrite in_map_iff. by intros (ev' & [= ->] & Hin).
Qed.

Lemma request_of_In (log : list Event) (method url : string) :
  request_of log = Some (method, url) -> In (EvHTTP method url) log.
Proof.
  unfold request_of.
  destruct (List.filter is_HTTP log) as [|ev rest] eqn:Hf; [done|].
  assert (Hin : In ev (List.filter is_HTTP log)) by (rewrite Hf; by left).
  apply List.filter_In in Hin as [Hin _].
  destruct ev; try done. by intros [= <- <-].
Qed.

Section MainProperties.

Context `{SliceSorter}.
Variable http_do : string -> string -> error + Response.
Variable decode_strings : string -> error + list string.
Variable decode_Cluster : string -> error + Cluster.t.
Variable decode_RepairRun : string -> error + RepairRun.t.
Variable decode_RepairRuns : string -> error + list RepairRun.t.
Variable decode_RepairSchedule : string -> error + RepairSchedule.t.
Variable decode_RepairSchedules : string -> error + list RepairSchedule.t.
Variable Encode : list (string * string) -> string.
Variable Itoa : Z -> string.
Variable Sprintf_f3 : float64 -> string.
Variable NetworkAddresses_Set : list string -> string -> error + list string.
Variable flag : FlagSets.
Variable groups : list (string * gmap string commandFn).
Variable visited : list (string * list string).

Local Abbreviation main_of p REAPER_HOST :=
  (main http_do decode_strings decode_Cluster decode_RepairRun
     decode_RepairRuns decode_RepairSchedule decode_RepairSchedules
     Encode Itoa Sprintf_f3 NetworkAddresses_Set flag groups visited
     p REAPER_HOST).

(** X16: every request of the program goes to one host: the first address
    the flag [host] collected or, when the flag collected none, the first
    address read from the variable [REAPER_HOST]; and the program makes a
    request only when its first argument names a command of the table. *)
Theorem main_requests_go_to_first_host
    (p : ParseOutcome (list string * list string)) (REAPER_HOST : string)
    (method url : string) :
  In (MOut (EvHTTP method url)) (fst (main_of p REAPER_HOST)) ->
  exists flReaperHost command rest fn host path,
    p = Parsed (flReaperHost, command :: rest)
    /\ findCommand_in groups command = Some fn
    /\ method = method_of fn
    /\ url = makeURL host path
    /\ (head flReaperHost = Some host
        \/ flReaperHost = [] /\ REAPER_HOST <> ""
           /\ exists more,
                NetworkAddresses_Set [] REAPER_HOST = inr (host :: more)).
Proof.
  unfold main.
  assert (Husage : ~ In (MOut (EvHTTP method url))
                      (map MOut (printUsage visited))).
  { intros Hin%In_MOut.
    by apply (prints_no_request _ _ _ (printUsage_prints visited)) in Hin. }
  destruct p as [|err|[flReaperHost args]]; cbn [fst]; [done| |].
  { by intros [|[]]. }
  match goal with
  | |- context [match ?x with inl _ => _ | inr _ => _ end] =>
      set (fromEnv := x)
  end.
  assert (Hhost : forall host more, fromEnv = inr (host :: more) ->
             head flReaperHost = Some host
             \/ flReaperHost = [] /\ REAPER_HOST <> ""
                /\ exists more,
                     NetworkAddresses_Set [] REAPER_HOST = inr (host :: more)).
  { intros host more. subst fromEnv.
    destruct flReaperHost as [|h hs]; cbn [length Nat.eqb andb].
    - unfold nonempty.
      destruct (String.eqb_spec REAPER_HOST ""); cbn [negb]; [done|].
      intros Hset. right. eauto.
    - intros [= -> ->]. by left. }
  destruct fromEnv as [err|[|host more]]; cbn [fst].
  { by intros [|[]]. }
  { intros [|[|Hin]]; done. }
  destruct args as [|command rest]; cbn [fst].
  { intros [|[|Hin]]; done. }
  destruct (findCommand_in groups command) as [fn|] eqn:Hfn; cbn [fst];
    [|by intros [|[]]].
  pose proof (requests_of_run host decode_strings decode_Cluster
                decode_RepairRun decode_RepairRuns decode_RepairSchedule
                decode_RepairSchedules Encode Itoa Sprintf_f3 http_do
                (call flag fn rest)) as Hreq.
  cbv zeta in Hreq. rewrite fn_of_call in Hreq.
  destruct (exec _ _ _ _ _ _ _ _ _ _ _ (call flag fn rest)) as [log out].
  cbn [fst] in Hreq.
  assert (Hlog : In (EvHTTP method url) log ->
            method = method_of fn
            /\ exists path, url = makeURL host path).
  { intros Hin.
    assert (Hf : In (EvHTTP method url) (List.filter is_HTTP log))
      by (by apply List.filter_In).
    destruct Hreq as [Hreq|(path & Hreq)]; rewrite Hreq in Hf; [done|].
    destruct Hf as [[= <- <-]|[]]. eauto. }
  intros Hin.
  assert (Hin' : In (EvHTTP method url) log).
  { destruct out as [[err|]|]; cbn [fst] in Hin.
    - apply in_app_iff in Hin as [Hin|[|[]]]; [by apply In_MOut | done].
    - by apply In_MOut.
    - by apply In_MOut. }
  destruct (Hlog Hin') as (-> & path & ->).
  exists flReaperHost, command, rest, fn, host, path.
  repeat split; try done. by apply (Hhost host more).
Qed.

(** X17: the program ends with status 0 only when help was asked for, of
    the program or of the command, or when the service answered the
    request of the command with the status the command expects
    ([listClusters]: with any status). *)
Theorem main_exit_zero
    (p : ParseOutcome (list string * list string)) (REAPER_HOST : string) :
  snd (main_of p REAPER_HOST) = Exit 0 ->
  p = ErrHelp
  \/ exists flReaperHost command rest fn,
       p = Parsed (flReaperHost, command :: rest)
       /\ findCommand_in groups command = Some fn
       /\ (flag_report (call flag fn rest) = Some HelpRequested
           \/ exists method url resp,
                In (MOut (EvHTTP method url)) (fst (main_of p REAPER_HOST))
                /\ http_do method url = inr resp
                /\ (fn = fn_listClusters
                    \/ StatusCode resp = expected_status fn)).
Proof.
  unfold main.
  destruct p as [|err|[flReaperHost args]]; cbn [snd]; [by left|done|].
  match goal with
  | |- context [match ?x with inl _ => _ | inr _ => _ end] =>
      destruct x as [err|[|host more]]; cbn [snd]; [done..|]
  end.
  destruct args as [|command rest]; cbn [snd]; [done|].
  destruct (findCommand_in groups command) as [fn|] eqn:Hfn; cbn [snd];
    [|done].
  pose proof (nil_return_of_run host decode_strings decode_Cluster
                decode_RepairRun decode_RepairRuns decode_RepairSchedule
                decode_RepairSchedules Encode Itoa Sprintf_f3 http_do
                (call flag fn rest)) as Hnil.
  cbv zeta in Hnil. rewrite fn_of_call in Hnil.
  destruct (exec _ _ _ _ _ _ _ _ _ _ _ (call flag fn rest)) as [log out].
  cbn [fst snd] in Hnil.
  destruct out as [[err|]|]; cbn [fst snd]; try done.
  intros _. right. exists flReaperHost, command, rest, fn.
  repeat split; try done.
  destruct (Hnil eq_refl) as [Hhelp|(method & url & resp & Hreq & Hdo & Hst)];
    [by left|right].
  exists method, url, resp. repeat split; try done.
  apply in_map. by apply request_of_In.
Qed.

End MainProperties.

Lemma main_requests_go_to_first_host_witness :
  exists flReaperHost command rest fn host path,
    Parsed (["reaper:8080"; "other:8080"], ["list-clusters"])
    = Parsed (flReaperHost, command :: rest)
    /\ findCommand_in commands command = Some fn
    /\ "GET" = method_of fn
    /\ "http://reaper:8080/cluster" = makeURL host path
    /\ (head flReaperHost = Some host
        \/ flReaperHost = [] /\ "ignored:1" <> ""
           /\ exists more, inr ([] ++ ["ignored:1"]) = @inr error _ (host :: more)).
Proof.
  apply (@main_requests_go_to_first_host insertion_sorter
           (always (mkResponse 200 "[]"))
           (decoded []) no_body no_body no_body no_body no_body
           (fun _ => "") (fun _ => "") (fun _ => "")
           (fun hosts s => inr (hosts ++ [s]))
           flag_help commands []
           (Parsed (["reaper:8080"; "other:8080"], ["list-clusters"]))
           "ignored:1" "GET" "http://reaper:8080/cluster").
  left. reflexivity.
Defined.

Lemma main_exit_zero_witness :
  Parsed (["reaper:8080"], ["list-clusters"]) = ErrHelp
  \/ exists flReaperHost command rest fn,
       Parsed (["reaper:8080"], ["list-clusters"])
       = Parsed (flReaperHost, command :: rest)
       /\ findCommand_in commands command = Some fn
       /\ (flag_report (call flag_help fn rest) = Some HelpRequested
           \/ exists method url resp,
                In (MOut (EvHTTP method url))
                  (fst (main_answered (mkResponse 200 "[]")
                          (Parsed (["reaper:8080"], ["list-clusters"])) ""))
                /\ always (mkResponse 200 "[]") method url = inr resp
                /\ (fn = fn_listClusters
                    \/ StatusCode resp = expected_status fn)).
Proof.
  apply (@main_exit_zero insertion_sorter
           (always (mkResponse 200 "[]"))
           (decoded []) no_body no_body no_body no_body no_body
           (fun _ => "") (fun _ => "") (fun _ => "")
           (fun hosts s => inr (hosts ++ [s]))
           flag_help commands []
           (Parsed (["reaper:8080"], ["list-clusters"])) "").
  reflexivity.
Defined.

(** ** What the flag parsers store *)

(** X18: when the parser of a run state, of a schedule state or of a
    parallelism returns nil, the value it stored is a defined variant, and
    the token equals the serialisation of that variant under case folding:
    no other value is ever stored. *)
Theorem enum_flags_store_only_variants (quote : string -> string) :
  stores_only_variants RunState_String (RunState_Set quote)
    RunState_variants
  /\ stores_only_variants ScheduleState_String (ScheduleState_Set quote)
       ScheduleState_variants
  /\ stores_only_variants Parallelism_String (Parallelism_Set quote)
       Parallelism_variants.
Proof.
  split; [|split]; intros stored tok v.
  - rewrite RunState_Set_canonical.
    repeat (case_match; [intros [= <-]; split; [simpl; tauto | done]|]).
    done.
  - rewrite ScheduleState_Set_canonical.
    repeat (case_match; [intros [= <-]; split; [simpl; tauto | done]|]).
    done.
  - rewrite Parallelism_Set_canonical.
    repeat (case_match; [intros [= <-]; split; [simpl; tauto | done]|]).
    done.
Qed.

Lemma enum_flags_store_only_variants_witness :
  In Paused RunState_variants
  /\ EqualFold "pAuSeD" (RunState_String Paused) = true.
Proof.
  apply (proj1 (enum_flags_store_only_variants (fun s => s))
           Running "pAuSeD" Paused).
  reflexivity.
Defined.

(** ** Dates in chronological order *)

Lemma Date_day_number (year month day : Z) :
  Date year month day = mkTime (day_number year month day * 86400) 0.
Proof. reflexivity. Qed.

Lemma month_cases (m : Z) :
  1 <= m <= 12 ->
  m = 1 \/ m = 2 \/ m = 3 \/ m = 4 \/ m = 5 \/ m = 6 \/ m = 7 \/ m = 8
  \/ m = 9 \/ m = 10 \/ m = 11 \/ m = 12.
Proof. lia. Qed.

Ltac each_month H :=
  apply month_cases in H;
  repeat (destruct H as [->|H]); [..|subst].

Lemma month_start_next (leap : bool) (m1 m2 : Z) :
  1 <= m1 <= 12 -> 1 <= m2 <= 12 -> m1 < m2 ->
  month_start leap m1 + month_length leap m1 <= month_start leap m2.
Proof.
  intros H1 H2 Hlt. each_month H1; each_month H2; try lia;
    destruct leap; by vm_compute.
Qed.

Lemma month_within_year (leap : bool) (m : Z) :
  1 <= m <= 12 ->
  0 <= month_start leap m
  /\ month_start leap m + month_length leap m
     <= 365 + (if leap then 1 else 0).
Proof.
  intros H1. each_month H1; destruct leap; by vm_compute.
Qed.

Lemma isLeap_mod (year : Z) :
  0 <= year ->
  isLeap year
  = (year mod 4 =? 0) && (negb (year mod 100 =? 0) || (year mod 400 =? 0)).
Proof.
  intros Hy. unfold isLeap. by rewrite !Z.rem_mod_nonneg by lia.
Qed.

Lemma daysSinceYearOne_next (year : Z) :
  0 <= year ->
  daysSinceYearOne (year + 1)
  = daysSinceYearOne year + 365 + (if isLeap year then 1 else 0).
Proof.
  intros Hy. rewrite isLeap_mod by done. unfold daysSinceYearOne. cbv zeta.
  replace (year + 1 - 1) with year by lia.
  destruct (Z.eqb_spec (year mod 4) 0);
    destruct (Z.eqb_spec (year mod 100) 0);
    destruct (Z.eqb_spec (year mod 400) 0);
    cbn [negb andb orb]; Z.div_mod_to_equations; lia.
Qed.

Lemma daysSinceYearOne_mono (y1 y2 : Z) :
  y1 <= y2 -> daysSinceYearOne y1 <= daysSinceYearOne y2.
Proof.
  intros Hle. unfold daysSinceYearOne. cbv zeta.
  Z.div_mod_to_equations. lia.
Qed.

Lemma day_number_bounds (year month day : Z) :
  calendar_date year month day ->
  daysSinceYearOne year <= day_number year month day
  < daysSinceYearOne (year + 1).
Proof.
  intros (Hy & Hm & Hd). rewrite daysSinceYearOne_next by lia.
  unfold day_number.
  pose proof (month_within_year (isLeap year) month Hm) as Hin.
  unfold month_start, month_length in Hin. unfold daysIn in Hd. lia.
Qed.

Lemma day_number_lt (y1 m1 d1 y2 m2 d2 : Z) :
  calendar_date y1 m1 d1 -> calendar_date y2 m2 d2 ->
  date_lt (y1, m1, d1) (y2, m2, d2) ->
  day_number y1 m1 d1 < day_number y2 m2 d2.
Proof.
  intros H1 H2 Hlt.
  pose proof (day_number_bounds _ _ _ H1) as Hb1.
  pose proof (day_number_bounds _ _ _ H2) as Hb2.
  destruct H1 as (Hy1 & Hm1 & Hd1), H2 as (Hy2 & Hm2 & Hd2).
  destruct Hlt as [Hy|[-> [Hm|[-> Hd]]]].
  - pose proof (daysSinceYearOne_mono (y1 + 1) y2). lia.
  - pose proof (month_start_next (isLeap y2) m1 m2 Hm1 Hm2 Hm) as Hnext.
    unfold day_number. unfold month_start, month_length in Hnext.
    unfold daysIn in Hd1. lia.
  - unfold day_number. lia.
Qed.

Lemma date_trichotomy (y1 m1 d1 y2 m2 d2 : Z) :
  date_lt (y1, m1, d1) (y2, m2, d2)
  \/ (y1, m1, d1) = (y2, m2, d2)
  \/ date_lt (y2, m2, d2) (y1, m1, d1).
Proof.
  unfold date_lt.
  destruct (Z.lt_trichotomy y1 y2) as [?|[->|?]]; [lia| |lia].
  destruct (Z.lt_trichotomy m1 m2) as [?|[->|?]]; [lia| |lia].
  destruct (Z.lt_trichotomy d1 d2) as [?|[->|?]]; [lia| |lia].
  right. by left.
Qed.

Lemma day_number_lt_iff (y1 m1 d1 y2 m2 d2 : Z) :
  calendar_date y1 m1 d1 -> calendar_date y2 m2 d2 ->
  day_number y1 m1 d1 < day_number y2 m2 d2
  <-> date_lt (y1, m1, d1) (y2, m2, d2).
Proof.
  intros H1 H2. split; [|by apply day_number_lt].
  intros Hlt.
  destruct (date_trichotomy y1 m1 d1 y2 m2 d2) as [?|[[= -> -> ->]|Hgt]];
    [done|lia|].
  pose proof (day_number_lt _ _ _ _ _ _ H2 H1 Hgt). lia.
Qed.

Lemma myTime_Set_date (year month day : Z) (t0 : myTime) :
  calendar_date year month day ->
  myTime_Set t0 (format_date year month day)
  = (mk_myTime (Date year month day), None).
Proof.
  intros (Hy & Hm & Hd). unfold myTime_Set, time_Parse.
  pose proof (month_within_year (isLeap year) month Hm) as Hin.
  assert (Hmax : daysIn month year <= 99).
  { pose proof Hm as Hm'. unfold daysIn.
    each_month Hm'; destruct (isLeap year); by vm_compute. }
  rewrite Parse_fields_format_date by lia.
  destruct (Z.ltb_spec day 1); [lia|].
  destruct (Z.ltb_spec (daysIn month year) day); [lia|]. done.
Qed.

(** X19: the instants the date flag stores are in the order of the
    calendar: of two dates it accepts (by C7, the calendar dates written
    yyyy-mm-dd), the instant of one is before (after) the instant of the
    other exactly when the date is; and the instant stored is Go's zero
    instant, which [listRepairs] takes for a bound that was not supplied,
    for the first of January of year 1 only. *)
Theorem date_flags_chronological (y1 m1 d1 y2 m2 d2 : Z) (t0 : myTime) :
  calendar_date y1 m1 d1 -> calendar_date y2 m2 d2 ->
  let a := fst (myTime_Set t0 (format_date y1 m1 d1)) in
  let b := fst (myTime_Set t0 (format_date y2 m2 d2)) in
  (Time_Before (myTime_Time a) (myTime_Time b) = true
   <-> date_lt (y1, m1, d1) (y2, m2, d2))
  /\ (Time_After (myTime_Time a) (myTime_Time b) = true
      <-> date_lt (y2, m2, d2) (y1, m1, d1))
  /\ (myTime_IsZero a = true <-> (y1, m1, d1) = (1, 1, 1)).
Proof.
  intros H1 H2. cbv zeta.
  rewrite !myTime_Set_date by done. cbn [fst myTime_Time].
  rewrite Time_After_Before, !Date_day_number.
  unfold Time_Before, myTime_IsZero, Time_IsZero. cbn [sec nsec myTime_Time].
  rewrite <- (day_number_lt_iff y1 m1 d1 y2 m2 d2) by done.
  rewrite <- (day_number_lt_iff y2 m2 d2 y1 m1 d1) by done.
  change (0 <? 0) with false. change (0 =? 0) with true.
  rewrite !andb_false_r, !orb_false_r, andb_true_r.
  rewrite !Z.ltb_lt, Z.eqb_eq.
  split; [lia|]. split; [lia|].
  assert (Hone : calendar_date 1 1 1) by (by vm_compute).
  pose proof (day_number_lt_iff y1 m1 d1 1 1 1 H1 Hone) as Hbefore.
  pose proof (day_number_lt_iff 1 1 1 y1 m1 d1 Hone H1) as Hafter.
  change (day_number 1 1 1) with 0 in Hbefore, Hafter.
  destruct (date_trichotomy y1 m1 d1 1 1 1) as [Hlt|[Heq|Hgt]].
  - apply Hbefore in Hlt. split; [lia|]. intros [= -> -> ->].
    by vm_compute in Hlt.
  - injection Heq as -> -> ->. split; [done|]. intros _. by vm_compute.
  - apply Hafter in Hgt. split; [lia|]. intros [= -> -> ->].
    by vm_compute in Hgt.
Qed.

Lemma date_flags_chronological_witness :
  (Time_Before
     (myTime_Time (fst (myTime_Set myTime_zero (format_date 2020 2 29))))
     (myTime_Time (fst (myTime_Set myTime_zero (format_date 2020 3 1))))
   = true
   <-> date_lt (2020, 2, 29) (2020, 3, 1))
  /\ (Time_After
        (myTime_Time (fst (myTime_Set myTime_zero (format_date 2020 2 29))))
        (myTime_Time (fst (myTime_Set myTime_zero (format_date 2020 3 1))))
      = true
      <-> date_lt (2020, 3, 1) (2020, 2, 29))
  /\ (myTime_IsZero (fst (myTime_Set myTime_zero (format_date 2020 2 29)))
      = true
      <-> (2020, 2, 29) = (1, 1, 1)).
Proof.
  apply (date_flags_chronological 2020 2 29 2020 3 1 myTime_zero).
  - unfold calendar_date. vm_compute. intuition discriminate.
  - unfold calendar_date. vm_compute. intuition discriminate.
Defined.

(** ** Refusals *)


Section Refusals.

Context `{SliceSorter}.
Variable host : string.
Variable decode_strings : string -> error + list string.
Variable decode_Cluster : string -> error + Cluster.t.
Variable decode_RepairRun : string -> error + RepairRun.t.
Variable decode_RepairRuns : string -> error + list RepairRun.t.
Variable decode_RepairSchedule : string -> error + RepairSchedule.t.
Variable decode_RepairSchedules : string -> error + list RepairSchedule.t.
Variable Encode : list (string * string) -> string.
Variable Itoa : Z -> string.
Variable Sprintf_f3 : float64 -> string.

Local Abbreviation run_with http_do :=
  (exec host http_do decode_strings decode_Cluster decode_RepairRun
     decode_RepairRuns decode_RepairSchedule decode_RepairSchedules
     Encode Itoa Sprintf_f3).


End Refusals.

